(** * Verification of the heuristic scorer and the chat-completion call of
    tg-gpt-bot ([src/bot.py]).

    The program is a Telegram bot.  Its computational core is
    [mce_filter_scored], which takes a pandas DataFrame of leads, detects a
    name, a company and an amount column, scores every row with four
    sub-scores, keeps the relevant rows and sorts them by priority.  The bot
    also forwards chat messages to a language-model HTTP endpoint
    ([call_openai]).

    Modelling conventions.
    - Python [str] values are modelled as Rocq [string]s holding their UTF-8
      bytes; substring search on valid UTF-8 bytes coincides with substring
      search on code points.
    - The behaviour of the Python runtime and of pandas that the code relies
      on but that is not part of this repository ([str.lower], [str.strip],
      the string-to-number parser of [pd.to_numeric], [str] of a float) is
      collected in the record [Runtime].  Every general theorem is
      quantified over it; the instance [cpython] is used to evaluate
      concrete inputs.
    - Floats are modelled by [Q] (NaN is modelled separately where it
      occurs). *)

From Stdlib Require Import String Ascii List Bool ZArith QArith Lia.
From Stdlib Require Import Sorted Permutation FunctionalExtensionality Psatz.
Import ListNotations.
Open Scope nat_scope.
Open Scope string_scope.

(* ------------------------------------------------------------------ *)
(** ** Python strings *)

(** [p] is a prefix of [t]; the empty string is a prefix of everything. *)
Fixpoint prefixb (p t : string) : bool :=
  match p, t with
  | EmptyString, _ => true
  | String a p', String b t' => Ascii.eqb a b && prefixb p' t'
  | String _ _, EmptyString => false
  end.

(** Python's [k in t] on strings. *)
Fixpoint contains (k t : string) : bool :=
  prefixb k t ||
  match t with
  | EmptyString => false
  | String _ t' => contains k t'
  end.

(** Python's [any(...)] over a list. *)
Definition any {A} (f : A -> bool) (l : list A) : bool := existsb f l.

(** [sum(b for ...)] over booleans: the number of [True]s. *)
Definition count_true {A} (f : A -> bool) (l : list A) : nat :=
  length (filter f l).

(** Behaviour of the Python runtime and of pandas that is used by the code
    but not defined in this repository. *)
Record Runtime := {
  py_lower : string -> string;          (** [str.lower] *)
  py_strip : string -> string;          (** [str.strip] *)
  str_to_num : string -> option Q;      (** number parser of [pd.to_numeric] / [float()] on a str; [None]: not a number *)
  float_repr : Q -> string              (** [str] of a float *)
}.

(* ------------------------------------------------------------------ *)
(** ** A concrete runtime, for evaluating concrete inputs *)

Definition byte (n : nat) : ascii := ascii_of_nat n.

Definition in_range (lo hi n : nat) : bool := Nat.leb lo n && Nat.leb n hi.

(** [str.lower] on UTF-8 bytes, for ASCII and the Cyrillic block
    U+0400..U+042F (the alphabets of the program's vocabularies); other
    characters are left unchanged. *)
Fixpoint utf8_lower (s : string) : string :=
  match s with
  | EmptyString => EmptyString
  | String c s' =>
      let n := nat_of_ascii c in
      if in_range 65 90 n then String (byte (n + 32)) (utf8_lower s')
      else if Nat.eqb n 208 then
        match s' with
        | String d s'' =>
            let m := nat_of_ascii d in
            if in_range 128 143 m then
              String (byte 209) (String (byte (m + 16)) (utf8_lower s''))
            else if in_range 144 159 m then
              String c (String (byte (m + 32)) (utf8_lower s''))
            else if in_range 160 175 m then
              String (byte 209) (String (byte (m - 32)) (utf8_lower s''))
            else String c (String d (utf8_lower s''))
        | EmptyString => String c EmptyString
        end
      else String c (utf8_lower s')
  end.

Definition is_py_space (c : ascii) : bool :=
  let n := nat_of_ascii c in (in_range 9 13 n) || Nat.eqb n 32.

Fixpoint lstrip (s : string) : string :=
  match s with
  | String c s' => if is_py_space c then lstrip s' else s
  | EmptyString => EmptyString
  end.

Fixpoint rev_string (s : string) (acc : string) : string :=
  match s with
  | EmptyString => acc
  | String c s' => rev_string s' (String c acc)
  end.

(** [str.strip] for ASCII white space. *)
Definition ascii_strip (s : string) : string :=
  rev_string (lstrip (rev_string (lstrip s) EmptyString)) EmptyString.

Definition digit_val (c : ascii) : option Z :=
  let n := nat_of_ascii c in
  if in_range 48 57 n then Some (Z.of_nat (n - 48)) else None.

(** Digits of a decimal string: value and number of digits. *)
Fixpoint parse_digits (s : string) (acc : Z) (k : nat) : option (Z * nat * string) :=
  match s with
  | String c s' =>
      match digit_val c with
      | Some d => parse_digits s' (acc * 10 + d)%Z (S k)
      | None => Some (acc, k, s)
      end
  | EmptyString => Some (acc, k, EmptyString)
  end.

(** Decimal numbers [[-+]digits[.digits]]; anything else is not a number. *)
Definition parse_decimal (s : string) : option Q :=
  let '(sign, s1) :=
    match s with
    | String "-" s' => ((-1)%Z, s')
    | String "+" s' => (1%Z, s')
    | _ => (1%Z, s)
    end in
  match parse_digits s1 0%Z 0 with
  | Some (ip, S _, EmptyString) => Some (inject_Z (sign * ip)%Z)
  | Some (ip, S _, String "." s2) =>
      match parse_digits s2 0%Z 0 with
      | Some (fp, S k, EmptyString) =>
          Some (Qmake (sign * (ip * 10 ^ Z.of_nat (S k) + fp))%Z (Pos.of_nat (10 ^ S k)))
      | _ => None
      end
  | _ => None
  end.

Fixpoint digits_of_pos_aux (fuel : nat) (n : Z) (acc : string) : string :=
  match fuel with
  | O => acc
  | S f =>
      let acc' := String (byte (48 + Z.to_nat (n mod 10)%Z)) acc in
      if (n <? 10)%Z then acc' else digits_of_pos_aux f (n / 10)%Z acc'
  end.

(** [str] of a Python int. *)
Definition z_repr (z : Z) : string :=
  if (z <? 0)%Z then String "-" (digits_of_pos_aux 64 (- z)%Z EmptyString)
  else digits_of_pos_aux 64 z EmptyString.

(** [str] of an integral float ([5.0]); other floats are rendered as a
    fraction, outside the range this instance is used on. *)
Definition q_repr (q : Q) : string :=
  if (Zpos (Qden q) =? 1)%Z then z_repr (Qnum q) ++ ".0"
  else z_repr (Qnum q) ++ "/" ++ z_repr (Zpos (Qden q)).

Definition cpython : Runtime := {|
  py_lower := utf8_lower;
  py_strip := ascii_strip;
  str_to_num := parse_decimal;
  float_repr := q_repr
|}.

(* ------------------------------------------------------------------ *)
(** ** DataFrame cells *)

(** A cell of a pandas DataFrame: a str, an int, a float or a missing
    value (NaN). *)
Inductive cell := PStr (s : string) | PInt (z : Z) | PFloat (q : Q) | PNaN.

Section Cells.
Variable rt : Runtime.

(** [str(x)] *)
Definition py_str (c : cell) : string :=
  match c with
  | PStr s => s
  | PInt z => z_repr z
  | PFloat q => float_repr rt q
  | PNaN => "nan"
  end.

(** [float(x)]; [None]: the conversion raises (or the value is NaN). *)
Definition py_float (c : cell) : option Q :=
  match c with
  | PStr s => str_to_num rt s
  | PInt z => Some (inject_Z z)
  | PFloat q => Some q
  | PNaN => None
  end.

(** [pd.to_numeric(x, errors="coerce")] on one cell; [None] is NaN. *)
Definition to_numeric (c : cell) : option Q :=
  match c with
  | PStr s => str_to_num rt s
  | PInt z => Some (inject_Z z)
  | PFloat q => Some q
  | PNaN => None
  end.

End Cells.

(* ------------------------------------------------------------------ *)
(** ** Column aliases and vocabularies ([NAME_ALIASES] ... [LEAD_PATTERNS]) *)

Definition NAME_ALIASES : list string :=
  ["название"; "название сделки"; "название лида"; "наименование"; "предмет"; "тема"; "лот"].

Definition COMPANY_ALIASES : list string :=
  ["компания"; "заказчик"; "покупатель"; "организация"; "клиент"; "контрагент"; "инициатор"].

Definition AMOUNT_ALIASES : list string :=
  ["сумма"; "бюджет"; "нмцк"; "начальная цена"; "стоимость"; "price"; "amount"; "total"; "макс цена"].

Definition KEYWORDS : list string := [
  (* учёт/измерение/узлы *)
  "сикг"; "сикн"; "сикнс"; "сикк"; "уирг"; "ууг"; "уун"; "асн"; "асу тп"; "асутп";
  "узел учета"; "узел учёта"; "узел измерения"; "узел редуцирования";
  "измеритель"; "измерительная установка"; "система измерен"; "система контроля";
  (* агзу и измерительные установки *)
  "агзу"; "измерительная установка";
  (* налив/слив/эстакады *)
  "система налива"; "пункт налива"; "станция налива"; "система слива"; "пункт слива"; "эстакада";
  "налив нефти"; "слив нефти"; "налив метанола"; "герметичный налив";
  (* дозирование реагентов *)
  "установка дозирования"; "дозирован"; "узел ввода реагентов"; "удх"; "удхб";
  (* блочное/модульное *)
  "блок-бокс"; "блочный"; "модульный блок"; "технологический блок"; "блочно-модульная";
  (* пробоотбор/аналитика/лаборатории *)
  "пробоотбор"; "пробоотборник"; "сог"; "хал"; "лаборатор"; "химико-аналитичес"; "газоаналитичес";
  "анализатор"; "хроматограф"; "метрологический стенд"; "поверочный стенд"; "испытательный стенд";
  (* кип/приборка/датчики/уровень/расход/давление *)
  "кип"; "контрольно-измерительн"; "датчик"; "датчики"; "манометр"; "уровнемер"; "расходомер";
  "термометр"; "термопара"; "тсп"; "ртд"; "манифольд"; "диафрагма";
  (* смежные термины *)
  "пнр"; "шмр"; "пир"; "модернизация"; "проектирование"; "комплекс поставки"
].

Definition CLIENTS : list string := [
  "газпром"; "газпромнефть"; "лукойл"; "роснефть"; "славнефть"; "самаранефтегаз"; "няганьнефть";
  "восток-оил"; "инк"; "ннк"; "ритэк"; "башнефть"; "метафракс"; "еврохим"; "русснефть";
  "томскнефть"; "мессояханефтегаз"; "русгаз"; "бск"; "козс"; "татнефть"
].

(** The regular expressions of [LEAD_PATTERNS] are literals, some anchored
    at the start with [^]. *)
Inductive regex := RStart (lit : string) | RAny (lit : string).

Definition LEAD_PATTERNS : list regex := [
  RStart "ткп"; RStart "ап"; RStart "com"; RAny "запрос"; RAny "поставка";
  RAny "система"; RAny "узел"; RAny "модернизация"; RAny "проектирование"; RAny "комплекс";
  RAny "блок"; RAny "асутп"; RAny "асу тп"
].

(* ------------------------------------------------------------------ *)
(** ** Scoring ([_any_in] ... [_reason]) *)

Section Scoring.
Variable rt : Runtime.

Definition _any_in (text : string) (bag : list string) : bool :=
  let t := py_lower rt text in
  any (fun k => contains k t) bag.

(** [re.search(p, t, re.IGNORECASE)] for a literal pattern: both sides are
    compared case-folded. *)
Definition re_search_ci (p : regex) (t : string) : bool :=
  match p with
  | RStart l => prefixb (py_lower rt l) (py_lower rt t)
  | RAny l => contains (py_lower rt l) (py_lower rt t)
  end.

Definition _any_re (text : string) (patterns : list regex) : bool :=
  any (fun p => re_search_ci p text) patterns.

(** Number of entries of [KEYWORDS] (a list, with its repetitions) that
    occur in the lowered text. *)
Definition keyword_hits (s : string) : nat :=
  let t := py_lower rt s in
  count_true (fun k => contains k t) KEYWORDS.

Definition _score_keywords (s : string) : Z :=
  let hits := keyword_hits s in
  if Nat.leb 4 hits then 4
  else if Nat.eqb hits 3 then 3
  else if Nat.eqb hits 2 then 2
  else if Nat.eqb hits 1 then 1
  else 0.

Definition _score_client (s : string) : Z :=
  if _any_in s CLIENTS then 3 else 0.

(** [_score_amount] converts its argument with [float()]; a failure gives
    [0.0].  A float NaN is also sent to [0.0]: NaN fails both comparisons,
    so the score is [0] either way. *)
Definition _score_amount (a : cell) : Z :=
  let a := match py_float rt a with Some q => q | None => 0%Q end in
  if Qle_bool 300000000 a then 2
  else if Qle_bool 50000000 a then 1
  else 0.

Definition _score_pattern (s : string) : Z :=
  if _any_re s LEAD_PATTERNS then 1 else 0.

End Scoring.

Definition _priority (total : Z) : string :=
  if Z.leb 7 total then "High"
  else if Z.leb 4 total then "Medium"
  else "Low".

(* ------------------------------------------------------------------ *)
(** ** DataFrames *)

(** A row is a pandas Series indexed by column label. *)
Definition row := list (string * cell).

(** A DataFrame: its column labels, in order, and its rows, each with its
    index label. *)
Record frame := mkFrame { columns : list string; rows : list (nat * row) }.

Fixpoint assoc {V} (k : string) (d : list (string * V)) : option V :=
  match d with
  | [] => None
  | (k', v) :: d' => if String.eqb k k' then Some v else assoc k d'
  end.

(** [d[k] = v] on a Python dict: an existing key keeps its position. *)
Fixpoint dict_set {V} (k : string) (v : V) (d : list (string * V)) : list (string * V) :=
  match d with
  | [] => [(k, v)]
  | (k', v') :: d' => if String.eqb k k' then (k, v) :: d' else (k', v') :: dict_set k v d'
  end.

(** [row[label]]; a label absent from the row reads as NaN. *)
Definition row_get (r : row) (label : string) : cell :=
  match assoc label r with Some c => c | None => PNaN end.

Definition has_col (f : frame) (label : string) : bool :=
  existsb (String.eqb label) (columns f).

(** [df[label]]; [None]: KeyError. *)
Definition get_col (f : frame) (label : string) : option (list cell) :=
  if has_col f label then Some (map (fun '(_, r) => row_get r label) (rows f)) else None.

(** [df[label] = values]: replaces the column, or appends it at the end. *)
Definition set_col (f : frame) (label : string) (vals : list cell) : frame :=
  {| columns := if has_col f label then columns f else (columns f ++ [label])%list;
     rows := map (fun '((i, r), v) => (i, dict_set label v r)) (combine (rows f) vals) |}.

Definition nrows (f : frame) : nat := length (rows f).

(** [df.fillna("")] *)
Definition fillna_str (f : frame) : frame :=
  {| columns := columns f;
     rows := map (fun '(i, r) => (i, map (fun '(k, c) => (k, match c with PNaN => PStr "" | _ => c end)) r))
               (rows f) |}.

(** [df[mask]]: the rows where the boolean mask is true. *)
Definition filter_rows (f : frame) (mask : list bool) : frame :=
  {| columns := columns f;
     rows := map fst (filter snd (combine (rows f) mask)) |}.

(* ------------------------------------------------------------------ *)
(** ** Column detection ([_find_col]) *)

Section FindCol.
Variable rt : Runtime.

(** [{str(c).strip().lower(): c for c in df.columns}] *)
Definition cols_map (cols : list string) : list (string * string) :=
  fold_left (fun d c => dict_set (py_lower rt (py_strip rt c)) c d) cols [].

Fixpoint first_exact (aliases : list string) (m : list (string * string)) : option string :=
  match aliases with
  | [] => None
  | a :: rest => match assoc a m with Some c => Some c | None => first_exact rest m end
  end.

Fixpoint first_containing (m : list (string * string)) (aliases : list string) : option string :=
  match m with
  | [] => None
  | (key, c) :: m' => if any (fun a => contains a key) aliases then Some c
                      else first_containing m' aliases
  end.

Definition _find_col (cols : list string) (aliases : list string) : option string :=
  let m := cols_map cols in
  match first_exact aliases m with
  | Some c => Some c
  | None => first_containing m aliases
  end.

End FindCol.

(** [x or default] for [x : str | None] *)
Definition py_or (x : option string) (default : string) : string :=
  match x with
  | Some c => if String.eqb c "" then default else c
  | None => default
  end.

(* ------------------------------------------------------------------ *)
(** ** Explanation ([_reason]) *)

(** [x > 0] on a cell of one of the int-typed score columns. *)
Definition cell_pos (c : cell) : bool :=
  match c with
  | PInt z => Z.ltb 0 z
  | PFloat q => negb (Qle_bool q 0)
  | _ => false
  end.

(** The int held by a cell of an int-typed column. *)
Definition cell_int (c : cell) : Z :=
  match c with PInt z => z | _ => 0%Z end.

(** [sep.join(parts)] *)
Fixpoint join (sep : string) (parts : list string) : string :=
  match parts with
  | [] => ""
  | [p] => p
  | p :: ps => p ++ sep ++ join sep ps
  end.

Definition _reason (r : row) : string :=
  let parts := (
    (if cell_pos (row_get r "Score_keywords(0-4)") then ["направления/ключевые слова"] else []) ++
    (if cell_pos (row_get r "Score_client(0-3)") then ["целевой заказчик"] else []) ++
    (if cell_pos (row_get r "Score_amount(0-2)") then ["масштаб сделки"] else []) ++
    (if cell_pos (row_get r "Score_pattern(0-1)") then ["тендерный шаблон"] else []))%list in
  match parts with
  | [] => "значимых совпадений нет"
  | _ => join ", " parts
  end.

(* ------------------------------------------------------------------ *)
(** ** Sorting ([out.sort_values(by=[...], key=..., ascending=[True, False, False])]) *)

Section ISort.
Variable A : Type.
Variable le : A -> A -> bool.

(** Stable sorting (a multi-column [sort_values] is a stable lexsort):
    insertion before the first element that is not smaller. *)
Fixpoint insert (x : A) (l : list A) : list A :=
  match l with
  | [] => [x]
  | y :: l' => if le x y then x :: y :: l' else y :: insert x l'
  end.

Fixpoint isort (l : list A) : list A :=
  match l with
  | [] => []
  | x :: l' => insert x (isort l')
  end.

End ISort.
Arguments insert {A} le x l.
Arguments isort {A} le l.

(** One sort key: a number, or NaN.  pandas puts NaN last for ascending
    and for descending keys alike. *)
Definition cmp_key (ascending : bool) (x y : option Q) : comparison :=
  match x, y with
  | Some a, Some b => if ascending then Qcompare a b else Qcompare b a
  | Some _, None => Lt
  | None, Some _ => Gt
  | None, None => Eq
  end.

(** [{"High":0, "Medium":1, "Low":2}] through [Series.map]: other values
    become NaN. *)
Definition prio_order (c : cell) : option Q :=
  match c with
  | PStr s =>
      if String.eqb s "High" then Some 0%Q
      else if String.eqb s "Medium" then Some 1%Q
      else if String.eqb s "Low" then Some 2%Q
      else None
  | _ => None
  end.

Section Sort.
Variable rt : Runtime.
Variable amount_col : string.

(** The sort keys of a row: the key function maps [Priority] through
    [prio_order] and the other two columns through [pd.to_numeric]. *)
Definition sort_key (r : row) : option Q * option Q * option Q :=
  (prio_order (row_get r "Priority"),
   to_numeric rt (row_get r "Score_total(0-10)"),
   to_numeric rt (row_get r amount_col)).

(** The lexicographic order on the keys. *)
Definition key_cmp (r1 r2 : row) : comparison :=
  let '(p1, t1, a1) := sort_key r1 in
  let '(p2, t2, a2) := sort_key r2 in
  match cmp_key true p1 p2 with
  | Eq => match cmp_key false t1 t2 with
          | Eq => cmp_key false a1 a2
          | c => c
          end
  | c => c
  end.

Definition row_le (r1 r2 : row) : bool :=
  match key_cmp r1 r2 with Gt => false | _ => true end.

Definition sort_values (f : frame) : frame :=
  {| columns := columns f; rows := isort (fun a b => row_le (snd a) (snd b)) (rows f) |}.

End Sort.

(* ------------------------------------------------------------------ *)
(** ** The object store

    DataFrames are mutable Python objects: [df[c] = v] changes the object
    in place, [copy()], [fillna], boolean indexing and [sort_values]
    allocate new ones.  A computation runs on a store of frames and fails
    ([None]) where the Python code would raise. *)

Definition loc := nat.

Record store := mkStore { heap : loc -> option frame; next : loc }.

Definition M (A : Type) : Type := store -> option (A * store).

Definition ret {A} (a : A) : M A := fun s => Some (a, s).

Definition bind {A B} (m : M A) (k : A -> M B) : M B :=
  fun s => match m s with Some (a, s') => k a s' | None => None end.

Notation "x <- m ;; k" := (bind m (fun x => k))
  (at level 61, m at next level, right associativity).
Notation "m ;;; k" := (bind m (fun _ => k))
  (at level 61, right associativity).

Definition lift {A} (o : option A) : M A :=
  fun s => match o with Some a => Some (a, s) | None => None end.

Definition upd (h : loc -> option frame) (l : loc) (f : frame) : loc -> option frame :=
  fun l' => if Nat.eqb l' l then Some f else h l'.

Definition alloc (f : frame) : M loc :=
  fun s => Some (next s, {| heap := upd (heap s) (next s) f; next := S (next s) |}).

Definition load (l : loc) : M frame :=
  fun s => match heap s l with Some f => Some (f, s) | None => None end.

Definition write (l : loc) (f : frame) : M unit :=
  fun s => match heap s l with
           | Some _ => Some (tt, {| heap := upd (heap s) l f; next := next s |})
           | None => None
           end.

(** [df[c]] *)
Definition series (l : loc) (c : string) : M (list cell) :=
  f <- load l ;; lift (get_col f c).

(** [df[c] = vals] *)
Definition assign (l : loc) (c : string) (vals : list cell) : M unit :=
  f <- load l ;; write l (set_col f c vals).

(* ------------------------------------------------------------------ *)
(** ** The scorer ([mce_filter_scored]) *)

Record diag := mkDiag {
  d_name_col : string;
  d_company_col : string;
  d_amount_col : string;
  d_kw_hits : nat;
  d_client_hits : nat;
  d_pattern_hits : nat;
  d_sum_ge_min : nat;
  d_total_in : nat;
  d_total_out : nat
}.

Definition map2 {A B C} (f : A -> B -> C) (l1 : list A) (l2 : list B) : list C :=
  map (fun '(a, b) => f a b) (combine l1 l2).

Definition map3 {A B C D} (f : A -> B -> C -> D) (l1 : list A) (l2 : list B) (l3 : list C)
  : list D :=
  map (fun '(a, (b, c)) => f a b c) (combine l1 (combine l2 l3)).

Definition map4 {A B C D E} (f : A -> B -> C -> D -> E)
  (l1 : list A) (l2 : list B) (l3 : list C) (l4 : list D) : list E :=
  map (fun '(a, (b, (c, d))) => f a b c d) (combine l1 (combine l2 (combine l3 l4))).

(** [(s >= 1).sum()] *)
Definition hits (s : list Z) : nat := count_true (fun z => Z.leb 1 z) s.

Section Scorer.
Variable rt : Runtime.
(** [MIN_SUM], read from the environment at start-up. *)
Variable MIN_SUM : Q.

Definition mce_filter_scored (df_in : loc) : M (loc * diag) :=
  f_in <- load df_in ;;
  l_copy <- alloc f_in ;;                                   (* df_in.copy() *)
  f_copy <- load l_copy ;;
  df <- alloc (fillna_str f_copy) ;;                        (* .fillna("") *)
  f <- load df ;;
  let name_col := py_or (_find_col rt (columns f) NAME_ALIASES) "Название" in
  let company_col := py_or (_find_col rt (columns f) COMPANY_ALIASES) "Компания" in
  let amount_col := py_or (_find_col rt (columns f) AMOUNT_ALIASES) "Сумма" in
  f <- load df ;;
  (if has_col f name_col then ret tt
   else assign df name_col (repeat (PStr "") (nrows f))) ;;;
  f <- load df ;;
  (if has_col f company_col then ret tt
   else assign df company_col (repeat (PStr "") (nrows f))) ;;;
  f <- load df ;;
  (if has_col f amount_col then ret tt
   else assign df amount_col (repeat (PInt 0) (nrows f))) ;;;
  s <- series df name_col ;;
  assign df name_col (map (fun c => PStr (py_str rt c)) s) ;;;
  s <- series df company_col ;;
  assign df company_col (map (fun c => PStr (py_str rt c)) s) ;;;
  (* скоринг *)
  names <- series df name_col ;;
  let kw := map (fun c => _score_keywords rt (py_str rt c)) names in
  companies <- series df company_col ;;
  let cl := map (fun c => _score_client rt (py_str rt c)) companies in
  amounts <- series df amount_col ;;
  let amt_vals := map (fun c => match to_numeric rt c with Some q => q | None => 0%Q end) amounts in
  let amt := map (fun a => _score_amount rt (PFloat a)) amt_vals in
  let pat := map (fun c => _score_pattern rt (py_str rt c)) names in
  assign df "Score_keywords(0-4)" (map PInt kw) ;;;
  assign df "Score_client(0-3)" (map PInt cl) ;;;
  assign df "Score_amount(0-2)" (map PInt amt) ;;;
  assign df "Score_pattern(0-1)" (map PInt pat) ;;;
  k4 <- series df "Score_keywords(0-4)" ;;
  c3 <- series df "Score_client(0-3)" ;;
  a2 <- series df "Score_amount(0-2)" ;;
  p1 <- series df "Score_pattern(0-1)" ;;
  assign df "Score_total(0-10)"
    (map4 (fun a b c d => PInt (cell_int a + cell_int b + cell_int c + cell_int d)) k4 c3 a2 p1) ;;;
  (* базовый смысловой проход *)
  let base_mask := map3 (fun k c p => Z.leb 1 k || Z.leb 1 c || Z.leb 1 p) kw cl pat in
  let sum_mask :=
    if Qle_bool MIN_SUM 0 then map (fun a => Qle_bool 0 a) amt_vals
    else map3 (fun a k p => Qle_bool MIN_SUM a || Z.leb 1 k || Z.leb 1 p) amt_vals kw pat in
  f <- load df ;;
  l_sel <- alloc (filter_rows f (map2 andb base_mask sum_mask)) ;;   (* df[mask] *)
  f_sel <- load l_sel ;;
  out <- alloc f_sel ;;                                              (* .copy() *)
  tot <- series out "Score_total(0-10)" ;;
  assign out "Priority" (map (fun c => PStr (_priority (cell_int c))) tot) ;;;
  f_out <- load out ;;
  assign out "Причина" (map (fun '(_, r) => PStr (_reason r)) (rows f_out)) ;;;
  (* сортировка *)
  f_out <- load out ;;
  sorted <- alloc (sort_values rt amount_col f_out) ;;
  (* Диагностика для сообщения *)
  f <- load df ;;
  f_sorted <- load sorted ;;
  ret (sorted,
       {| d_name_col := name_col;
          d_company_col := company_col;
          d_amount_col := amount_col;
          d_kw_hits := hits kw;
          d_client_hits := hits cl;
          d_pattern_hits := hits pat;
          d_sum_ge_min :=
            if negb (Qle_bool MIN_SUM 0) then count_true (fun a => Qle_bool MIN_SUM a) amt_vals
            else nrows f;
          d_total_in := nrows f;
          d_total_out := nrows f_sorted |}).

End Scorer.

(** A store holding one frame, at location [0]. *)
Definition init_store (f : frame) : store :=
  {| heap := fun l => if Nat.eqb l 0 then Some f else None; next := 1 |}.

(** The scorer run on a frame held alone in the store: the output frame and
    the diagnostics, or [None] if the run raises. *)
Definition score_table (rt : Runtime) (min_sum : Q) (f : frame) : option (frame * diag) :=
  match mce_filter_scored rt min_sum 0 (init_store f) with
  | Some ((l, d), s) => match heap s l with Some out => Some (out, d) | None => None end
  | None => None
  end.

(* ------------------------------------------------------------------ *)
(** ** The scorer as a function of its input frame

    [mce_filter_scored] only reads its input and writes frames it has
    allocated itself, so its results are a function of the input frame.
    [mce_stages] computes them; [mce_filter_scored_run] below proves that
    the program computes exactly these values. *)

(** [df[c]] on a column known to exist. *)
Definition col (f : frame) (c : string) : list cell :=
  map (fun '(_, r) => row_get r c) (rows f).

(** [if c not in df.columns: df[c] = v] *)
Definition add_missing (f : frame) (c : string) (v : cell) : frame :=
  if has_col f c then f else set_col f c (repeat v (nrows f)).

(** [df[c] = df[c].astype(str)] *)
Definition cast_str (rt : Runtime) (f : frame) (c : string) : frame :=
  set_col f c (map (fun x => PStr (py_str rt x)) (col f c)).

Section Stages.
Variable rt : Runtime.
Variable MIN_SUM : Q.

Definition detect (f : frame) : string * string * string :=
  (py_or (_find_col rt (columns f) NAME_ALIASES) "Название",
   py_or (_find_col rt (columns f) COMPANY_ALIASES) "Компания",
   py_or (_find_col rt (columns f) AMOUNT_ALIASES) "Сумма").

(** The frame [df] once its columns are detected, completed and cast. *)
Definition prepared (f : frame) : frame :=
  let f0 := fillna_str f in
  let '(name_col, company_col, amount_col) := detect f0 in
  let f1 := add_missing f0 name_col (PStr "") in
  let f2 := add_missing f1 company_col (PStr "") in
  let f3 := add_missing f2 amount_col (PInt 0) in
  let f4 := cast_str rt f3 name_col in
  cast_str rt f4 company_col.

Definition kw_of (f : frame) : list Z :=
  let '(name_col, _, _) := detect (fillna_str f) in
  map (fun c => _score_keywords rt (py_str rt c)) (col (prepared f) name_col).

Definition cl_of (f : frame) : list Z :=
  let '(_, company_col, _) := detect (fillna_str f) in
  map (fun c => _score_client rt (py_str rt c)) (col (prepared f) company_col).

Definition amt_vals_of (f : frame) : list Q :=
  let '(_, _, amount_col) := detect (fillna_str f) in
  map (fun c => match to_numeric rt c with Some q => q | None => 0%Q end)
    (col (prepared f) amount_col).

Definition amt_of (f : frame) : list Z :=
  map (fun a => _score_amount rt (PFloat a)) (amt_vals_of f).

Definition pat_of (f : frame) : list Z :=
  let '(name_col, _, _) := detect (fillna_str f) in
  map (fun c => _score_pattern rt (py_str rt c)) (col (prepared f) name_col).

(** The frame [df] with its score columns. *)
Definition scored (f : frame) : frame :=
  let f6 := set_col (prepared f) "Score_keywords(0-4)" (map PInt (kw_of f)) in
  let f7 := set_col f6 "Score_client(0-3)" (map PInt (cl_of f)) in
  let f8 := set_col f7 "Score_amount(0-2)" (map PInt (amt_of f)) in
  let f9 := set_col f8 "Score_pattern(0-1)" (map PInt (pat_of f)) in
  set_col f9 "Score_total(0-10)"
    (map4 (fun a b c d => PInt (cell_int a + cell_int b + cell_int c + cell_int d))
       (col f9 "Score_keywords(0-4)") (col f9 "Score_client(0-3)")
       (col f9 "Score_amount(0-2)") (col f9 "Score_pattern(0-1)")).

Definition base_mask (f : frame) : list bool :=
  map3 (fun k c p => Z.leb 1 k || Z.leb 1 c || Z.leb 1 p) (kw_of f) (cl_of f) (pat_of f).

Definition sum_mask (f : frame) : list bool :=
  if Qle_bool MIN_SUM 0 then map (fun a => Qle_bool 0 a) (amt_vals_of f)
  else map3 (fun a k p => Qle_bool MIN_SUM a || Z.leb 1 k || Z.leb 1 p)
         (amt_vals_of f) (kw_of f) (pat_of f).

(** [out] before sorting. *)
Definition presorted (f : frame) : frame :=
  let f_sel := filter_rows (scored f) (map2 andb (base_mask f) (sum_mask f)) in
  let f11 := set_col f_sel "Priority"
               (map (fun c => PStr (_priority (cell_int c))) (col f_sel "Score_total(0-10)")) in
  set_col f11 "Причина" (map (fun '(_, r) => PStr (_reason r)) (rows f11)).

Definition output (f : frame) : frame :=
  let '(_, _, amount_col) := detect (fillna_str f) in
  sort_values rt amount_col (presorted f).

Definition diagnostics (f : frame) : diag :=
  let '(name_col, company_col, amount_col) := detect (fillna_str f) in
  {| d_name_col := name_col;
     d_company_col := company_col;
     d_amount_col := amount_col;
     d_kw_hits := hits (kw_of f);
     d_client_hits := hits (cl_of f);
     d_pattern_hits := hits (pat_of f);
     d_sum_ge_min :=
       if negb (Qle_bool MIN_SUM 0) then count_true (fun a => Qle_bool MIN_SUM a) (amt_vals_of f)
       else nrows (scored f);
     d_total_in := nrows (scored f);
     d_total_out := nrows (output f) |}.

End Stages.

(* ------------------------------------------------------------------ *)
(** ** The chat-completion call ([call_openai]) *)

Fixpoint split_once (sep s : string) : option (string * string) :=
  if prefixb sep s then Some ("", substring (String.length sep) (String.length s - String.length sep) s)
  else match s with
       | EmptyString => None
       | String c s' => option_map (fun '(a, b) => (String c a, b)) (split_once sep s')
       end.

Definition openai_messages (lines : list string) : list (string * string) :=
  flat_map (fun ln =>
    if contains ": " ln then
      match split_once ": " ln with
      | Some (role, content) =>
          if existsb (String.eqb role) ["system"; "user"; "assistant"] then [(role, content)] else []
      | None => []
      end
    else []) lines.

Inductive py_exn :=
| HTTPStatusError (status_code : Z) (text : string)
| Exc (msg : string)
| BaseExc (msg : string).

Inductive json :=
| JNull
| JBool (b : bool)
| JNum (q : Q)
| JStr (s : string)
| JArr (l : list json)
| JObj (m : list (string * json)).

Inductive post_outcome :=
| PostRaised (e : py_exn)
| PostResponse (status_code : Z) (text : string) (body : string + json).

Definition and_then {A B} (m : py_exn + A) (k : A -> py_exn + B) : py_exn + B :=
  match m with inl e => inl e | inr a => k a end.

Definition getitem_key (j : json) (k : string) : py_exn + json :=
  match j with
  | JObj m => match assoc k (rev m) with Some v => inr v | None => inl (Exc ("'" ++ k ++ "'")) end
  | JArr _ => inl (Exc "list indices must be integers or slices, not str")
  | JStr _ => inl (Exc "string indices must be integers, not 'str'")
  | _ => inl (Exc "object is not subscriptable")
  end.

Definition getitem_idx (j : json) (i : nat) : py_exn + json :=
  match j with
  | JArr l => match nth_error l i with Some v => inr v | None => inl (Exc "list index out of range") end
  | JObj _ => inl (Exc (z_repr (Z.of_nat i)))
  | JStr s => if Nat.ltb i (String.length s) then inr (JStr (substring i 1 s))
              else inl (Exc "string index out of range")
  | _ => inl (Exc "object is not subscriptable")
  end.

Definition json_strip (rt : Runtime) (j : json) : py_exn + string :=
  match j with
  | JStr s => inr (py_strip rt s)
  | _ => inl (Exc "object has no attribute 'strip'")
  end.

Definition openai_try (rt : Runtime) (r : post_outcome) : py_exn + string :=
  match r with
  | PostRaised e => inl e
  | PostResponse status text body =>
      if Z.leb 200 status && Z.ltb status 300 then
        match body with
        | inl msg => inl (Exc msg)
        | inr data =>
            and_then (getitem_key data "choices") (fun x =>
            and_then (getitem_idx x 0) (fun x =>
            and_then (getitem_key x "message") (fun x =>
            and_then (getitem_key x "content") (json_strip rt))))
        end
      else inl (HTTPStatusError status text)
  end.

Definition call_openai (rt : Runtime) (post : list (string * string) -> post_outcome)
    (lines : list string) : py_exn + string :=
  match openai_try rt (post (openai_messages lines)) with
  | inr s => inr s
  | inl (HTTPStatusError status text) => inr ("⚠️ OpenAI " ++ z_repr status ++ ": " ++ text)
  | inl (Exc msg) => inr ("⚠️ Локальная ошибка: " ++ msg)
  | inl (BaseExc msg) => inl (BaseExc msg)
  end.

(* ------------------------------------------------------------------ *)
(** ** Reference notions used in the statements *)

(** The keyword score computed over distinct keywords. *)
Definition bucket (n : nat) : Z := if Nat.leb 4 n then 4%Z else Z.of_nat n.
Definition distinct_keyword_score (rt : Runtime) (s : string) : Z :=
  let t := py_lower rt s in
  bucket (count_true (fun k => contains k t) (nodup string_dec KEYWORDS)).

(** Header normalisation of [_find_col]: [str(c).strip().lower()]. *)
Definition norm (rt : Runtime) (c : string) : string := py_lower rt (py_strip rt c).

(** The columns [mce_filter_scored] adds to the frame. *)
Definition added_columns : list string :=
  ["Score_keywords(0-4)"; "Score_client(0-3)"; "Score_amount(0-2)"; "Score_pattern(0-1)";
   "Score_total(0-10)"; "Priority"; "Причина"].

(** Sort keys of a scored row. *)
Definition tier (c : cell) : nat :=
  match c with
  | PStr s => if String.eqb s "High" then 0 else if String.eqb s "Medium" then 1 else 2
  | _ => 2
  end.

Definition total_of (r : row) : Z := cell_int (row_get r "Score_total(0-10)").

Definition amount_le (a1 a2 : option Q) : Prop :=
  match a1, a2 with
  | Some x, Some y => (y <= x)%Q
  | Some _, None => True
  | None, Some _ => False
  | None, None => True
  end.

Definition amount_same (a1 a2 : option Q) : Prop :=
  match a1, a2 with
  | Some x, Some y => (x == y)%Q
  | None, None => True
  | _, _ => False
  end.

Definition claim_le (rt : Runtime) (amount_col : string) (r1 r2 : row) : Prop :=
  let t1 := tier (row_get r1 "Priority") in
  let t2 := tier (row_get r2 "Priority") in
  t1 < t2 \/
  (t1 = t2 /\
   ((total_of r2 < total_of r1)%Z \/
    (total_of r1 = total_of r2 /\
     amount_le (to_numeric rt (row_get r1 amount_col)) (to_numeric rt (row_get r2 amount_col))))).

Definition claim_same (rt : Runtime) (amount_col : string) (r1 r2 : row) : Prop :=
  tier (row_get r1 "Priority") = tier (row_get r2 "Priority") /\
  total_of r1 = total_of r2 /\
  amount_same (to_numeric rt (row_get r1 amount_col)) (to_numeric rt (row_get r2 amount_col)).

Definition coerced_amount (rt : Runtime) (amount_col : string) (r : row) : Q :=
  match to_numeric rt (row_get r amount_col) with Some q => q | None => 0%Q end.

(* ================================================================== *)

(** * Chat, file names and table replies *)

(* ------------------------------------------------------------------ *)
(** ** Conversation histories ([THREADS], [get_history], [on_text], [reset_cmd]) *)

Definition nl : string := String (ascii_of_nat 10) EmptyString.

Definition SYSTEM_PROMPT : string :=
  "Ты — ассистент отдела продаж МЦЭ Инжиниринг." ++ nl ++
  "Работаешь только с тендерами, лидами, сделками и таблицами." ++ nl ++
  "Не обсуждай товары, маркетплейсы, бытовую продукцию и прайс-листы." ++ nl.

(** [THREADS]: the dict from a Telegram user id to that user's history, a
    list of lines ["role: content"]. *)
Definition threads := Z -> option (list string).

Definition empty_threads : threads := fun _ => None.

(** [THREADS[uid] = hist] *)
Definition threads_set (t : threads) (uid : Z) (hist : list string) : threads :=
  fun u => if Z.eqb u uid then Some hist else t u.

(** [THREADS.pop(uid, None)] *)
Definition threads_pop (t : threads) (uid : Z) : threads :=
  fun u => if Z.eqb u uid then None else t u.

(** [get_history]: [THREADS.setdefault(uid, [])] returns the list stored
    under [uid] (storing a new empty one if there is none); the system line
    is appended to that very list when it is empty.  The list is only
    reachable through [THREADS] and the returned reference, so the new
    contents are stored back under [uid]. *)
Definition get_history (t : threads) (uid : Z) : list string * threads :=
  let hist := match t uid with Some h => h | None => [] end in
  let hist := match hist with [] => ["system: " ++ SYSTEM_PROMPT] | _ => hist end in
  (hist, threads_set t uid hist).

(** The Telegram API calls a handler makes (they are assumed to return
    normally). *)
Inductive tg_call :=
| SendChatAction (chat_id : Z) (action : string)
| ReplyText (text : string).

(** [on_text]: [text] is [update.message.text] ([None]: no message or no
    text); [post] is the endpoint's answer used by [call_openai].  The
    result: [inl e] when an exception propagates out of the handler, the
    new [THREADS], and the Telegram calls made.  [hist.append] mutates the
    list stored in [THREADS], so each append is stored back. *)
Definition on_text (rt : Runtime) (post : list (string * string) -> post_outcome)
    (t : threads) (text : option string) (uid chat_id : Z)
    : (py_exn + unit) * threads * list tg_call :=
  match text with
  | None => (inr tt, t, [])
  | Some s =>
      if String.eqb s "" then (inr tt, t, []) else
      let user_text := py_strip rt s in
      let '(hist, t) := get_history t uid in
      let hist := (hist ++ [("user: " ++ user_text)%string])%list in
      let t := threads_set t uid hist in
      let calls := [SendChatAction chat_id "typing"] in
      match call_openai rt post hist with
      | inl e => (inl e, t, calls)
      | inr reply =>
          let hist := (hist ++ [("assistant: " ++ reply)%string])%list in
          (inr tt, threads_set t uid hist, (calls ++ [ReplyText reply])%list)
      end
  end.

(** [reset_cmd] ([context.user_data], which no other handler reads, is not
    modelled). *)
Definition reset_cmd (t : threads) (uid : Z) : threads * list tg_call :=
  (threads_pop t uid, [ReplyText "Контекст очищен ✅"]).

(** The updates that reach the handlers which touch [THREADS], dispatched
    one at a time as [main] registers them ([start_cmd] and
    [handle_document] do not touch [THREADS]). *)
Inductive update :=
| TextUpdate (uid chat_id : Z) (text : option string) (post : list (string * string) -> post_outcome)
| ResetUpdate (uid : Z).

Definition dispatch (rt : Runtime) (t : threads) (u : update) : threads :=
  match u with
  | TextUpdate uid chat_id text post => snd (fst (on_text rt post t text uid chat_id))
  | ResetUpdate uid => fst (reset_cmd t uid)
  end.

Definition run_updates (rt : Runtime) (t : threads) (us : list update) : threads :=
  fold_left (dispatch rt) us t.

(** The line format [f"{role}: {content}"] of the history. *)
Definition history_line (m : string * string) : string := fst m ++ ": " ++ snd m.

Definition chat_role (r : string) : Prop := r = "system" \/ r = "user" \/ r = "assistant".

Definition system_msg : string * string := ("system", SYSTEM_PROMPT).

Definition turn_role (m : string * string) : Prop := fst m = "user" \/ fst m = "assistant".

Definition history_ok (t : threads) : Prop :=
  forall u h, t u = Some h ->
  exists conv, Forall turn_role conv /\ h = map history_line (system_msg :: conv).

(* ------------------------------------------------------------------ *)
(** ** File names ([_safe_name], [Path(..).name], [.suffix], [.stem]) *)

(** [s.split(c)] for a one-character separator [c]. *)
Fixpoint split_char (c : ascii) (s : string) : list string :=
  match s with
  | EmptyString => [""]
  | String a s' =>
      let parts := split_char c s' in
      if Ascii.eqb a c then "" :: parts
      else match parts with
           | p :: ps => String a p :: ps
           | [] => [String a ""]
           end
  end.

(** [PurePosixPath(p).name]: pathlib splits [p] on ["/"], drops the empty
    and the ["."] components, and the name is the last component left, or
    [""]. *)
Definition path_name (p : string) : string :=
  last (filter (fun x => negb (String.eqb x "") && negb (String.eqb x "."))
          (split_char "/" p)) "".

(** A character of the class [[A-Za-z0-9._-]]. *)
Definition safe_char (a : ascii) : bool :=
  let n := nat_of_ascii a in
  in_range 65 90 n || in_range 97 122 n || in_range 48 57 n ||
  Nat.eqb n 46 || Nat.eqb n 95 || Nat.eqb n 45.

(** [re.sub(r"[^A-Za-z0-9._-]+", "_", s)]: every maximal run of characters
    outside the class becomes one ["_"]; [in_run] tells whether the
    previous character was already replaced.  A non-ASCII character is a
    run of bytes outside the class, so on UTF-8 bytes this replaces the
    same runs as on code points. *)
Fixpoint sub_unsafe (in_run : bool) (s : string) : string :=
  match s with
  | EmptyString => ""
  | String a s' =>
      if safe_char a then String a (sub_unsafe false s')
      else if in_run then sub_unsafe true s'
      else String "_" (sub_unsafe true s')
  end.

Definition _safe_name (name fallback : string) : string :=
  let base := if String.eqb name "" then fallback else name in
  let base := path_name base in
  sub_unsafe false base.

(** [s.rfind(c)], [None] for [-1]. *)
Fixpoint rfind_char (c : ascii) (s : string) : option nat :=
  match s with
  | EmptyString => None
  | String a s' =>
      match rfind_char c s' with
      | Some i => Some (S i)
      | None => if Ascii.eqb a c then Some 0 else None
      end
  end.

(** [Path(p).suffix]: [name[i:]] for [i = name.rfind(".")] when
    [0 < i < len(name) - 1], else [""]. *)
Definition path_suffix (p : string) : string :=
  let name := path_name p in
  match rfind_char "." name with
  | Some i =>
      if Nat.ltb 0 i && Nat.ltb i (String.length name - 1)
      then substring i (String.length name - i) name else ""
  | None => ""
  end.

(** [Path(p).stem]: [name[:i]] under the same condition, else [name]. *)
Definition path_stem (p : string) : string :=
  let name := path_name p in
  match rfind_char "." name with
  | Some i =>
      if Nat.ltb 0 i && Nat.ltb i (String.length name - 1)
      then substring 0 i name else name
  | None => name
  end.

(** What [handle_document] does with a document, once the file is
    downloaded: read it as a table (with the name of the result file it
    sends back on success), or echo it back. *)
Inductive doc_route :=
| TableDoc (filename suffix result_name : string)
| EchoDoc (filename : string).

Definition route_document (rt : Runtime) (file_name : option string) : doc_route :=
  let filename := _safe_name (py_or file_name "file.bin") "file.bin" in
  let suffix := py_lower rt (path_suffix filename) in
  if existsb (String.eqb suffix) [".xlsx"; ".xls"; ".csv"]
  then TableDoc filename suffix ("MCE_filtered_scored_" ++ path_stem filename ++ ".xlsx")
  else EchoDoc filename.

(** [scored["Priority"].value_counts().to_dict().get(v, 0)]: the number of
    rows whose cell in column [c] is the str [v]. *)
Definition value_count (g : frame) (c v : string) : nat :=
  count_true (fun '(_, r) => match row_get r c with PStr s => String.eqb s v | _ => false end) (rows g).

(** [high], [med] and [low] of [handle_document], from the scorer's output
    and diagnostics. *)
Definition prio_counts (out : frame) (d : diag) : nat * nat * nat :=
  if Nat.eqb (d_total_out d) 0 then (0, 0, 0)
  else (value_count out "Priority" "High", value_count out "Priority" "Medium",
        value_count out "Priority" "Low").

(** A continuation byte [10xxxxxx] of UTF-8. *)
Definition utf8_cont (a : ascii) : bool := in_range 128 191 (nat_of_ascii a).

(** [s[:n]] on the characters of a UTF-8 string: the first [n] characters,
    each a leading byte with its continuation bytes. *)
Fixpoint utf8_take (n : nat) (s : string) : string :=
  match s with
  | EmptyString => ""
  | String a s' =>
      if utf8_cont a then String a (utf8_take n s')
      else match n with
           | O => ""
           | S n' => String a (utf8_take n' s')
           end
  end.

(** [len(s)] of a UTF-8 string: its number of leading bytes. *)
Fixpoint utf8_len (s : string) : nat :=
  match s with
  | EmptyString => 0
  | String a s' => (if utf8_cont a then 0 else 1) + utf8_len s'
  end.

(** [row.get(label, default)] *)
Definition row_get_or (r : row) (label : string) (default : cell) : cell :=
  match assoc label r with Some c => c | None => default end.

(** [f"• [{prio} | {sc}] {title}\n   — {why}"] *)
Definition preview_line (rt : Runtime) (name_col : string) (r : row) : string :=
  "• [" ++ py_str rt (row_get r "Priority") ++ " | " ++ py_str rt (row_get r "Score_total(0-10)") ++ "] " ++
  utf8_take 140 (py_str rt (row_get_or r name_col (PStr ""))) ++ nl ++
  "   — " ++ py_str rt (row_get r "Причина").

(** [preview_rows] of [handle_document]. *)
Definition preview_rows (rt : Runtime) (out : frame) (d : diag) : list string :=
  if Nat.eqb (d_total_out d) 0 then []
  else map (fun '(_, r) => preview_line rt (d_name_col d) r) (firstn 5 (rows out)).

(** * Proofs *)

(** ** The store *)

Definition set_st (s : store) (l : loc) (f : frame) : store :=
  {| heap := upd (heap s) l f; next := next s |}.

Lemma upd_eq h l f : upd h l f l = Some f.
Proof. unfold upd. now rewrite Nat.eqb_refl. Qed.

Lemma upd_neq h l l' f : l' <> l -> upd h l f l' = h l'.
Proof. intros H. unfold upd. destruct (Nat.eqb_spec l' l); congruence. Qed.

Lemma upd_same h l f : h l = Some f -> upd h l f = h.
Proof.
  intros H. extensionality l'. unfold upd.
  destruct (Nat.eqb_spec l' l); subst; auto.
Qed.

(** Symbolic execution of the monad, one bind at a time; stores are kept
    as explicit records. *)
Lemma bind_load_r {B} l (k : frame -> M B) h n f r :
  h l = Some f -> k f (mkStore h n) = r -> bind (load l) k (mkStore h n) = r.
Proof. intros H <-. cbv beta delta [bind load]. cbn [heap]. now rewrite H. Qed.

Lemma bind_alloc_r {B} f (k : loc -> M B) h n r :
  k n (mkStore (upd h n f) (S n)) = r -> bind (alloc f) k (mkStore h n) = r.
Proof. intros <-. reflexivity. Qed.

Lemma bind_ret_r {A B} (a : A) (k : A -> M B) s r : k a s = r -> bind (ret a) k s = r.
Proof. intros <-. reflexivity. Qed.

Lemma bind_assign_r {B} l c v (k : unit -> M B) h n f r :
  h l = Some f -> k tt (mkStore (upd h l (set_col f c v)) n) = r ->
  bind (assign l c v) k (mkStore h n) = r.
Proof.
  intros H <-. cbv beta delta [bind assign load write]. cbn [heap next].
  rewrite H. cbv beta iota. cbn [heap next]. rewrite H. reflexivity.
Qed.

Lemma bind_series_r {B} l c (k : list cell -> M B) h n f r :
  h l = Some f -> has_col f c = true -> k (col f c) (mkStore h n) = r ->
  bind (series l c) k (mkStore h n) = r.
Proof.
  intros H Hc <-. cbv beta delta [bind series load lift get_col]. cbn [heap].
  rewrite H, Hc. reflexivity.
Qed.

Lemma bind_add_missing_r {B} l c v (k : unit -> M B) h n f r :
  h l = Some f -> k tt (mkStore (upd h l (add_missing f c v)) n) = r ->
  bind (if has_col f c then ret tt else assign l c (repeat v (nrows f))) k (mkStore h n) = r.
Proof.
  intros H <-. unfold add_missing. destruct (has_col f c) eqn:Hc.
  - apply bind_ret_r. now rewrite (upd_same _ _ _ H).
  - now apply bind_assign_r with (f := f).
Qed.

Lemma upd_eq_r h l f f' : f = f' -> upd h l f l = Some f'.
Proof. intros <-. apply upd_eq. Qed.

Lemma upd_neq_r h l l' f r : l' <> l -> h l' = r -> upd h l f l' = r.
Proof. intros H <-. now apply upd_neq. Qed.

(** ** Columns *)

Lemma has_col_set_col_same f c v : has_col (set_col f c v) c = true.
Proof.
  unfold set_col. cbn [columns]. destruct (has_col f c) eqn:E.
  - exact E.
  - unfold has_col. cbn [columns]. rewrite existsb_app. cbn. rewrite String.eqb_refl. now rewrite orb_true_r.
Qed.

Lemma has_col_set_col_mono f c v x : has_col f x = true -> has_col (set_col f c v) x = true.
Proof.
  unfold set_col. cbn [columns]. intros H.
  destruct (has_col f c); auto.
  unfold has_col in *. cbn [columns]. rewrite existsb_app, H. reflexivity.
Qed.

Lemma has_col_add_missing_same f c v : has_col (add_missing f c v) c = true.
Proof.
  unfold add_missing. destruct (has_col f c) eqn:E; auto using has_col_set_col_same.
Qed.

Lemma has_col_add_missing_mono f c v x : has_col f x = true -> has_col (add_missing f c v) x = true.
Proof. unfold add_missing. destruct (has_col f c); auto using has_col_set_col_mono. Qed.

Lemma has_col_cast_str_mono rt f c x : has_col f x = true -> has_col (cast_str rt f c) x = true.
Proof. apply has_col_set_col_mono. Qed.

Lemma has_col_filter_rows f m x : has_col f x = true -> has_col (filter_rows f m) x = true.
Proof. auto. Qed.

Create HintDb cols.
#[local] Hint Resolve has_col_set_col_same has_col_set_col_mono has_col_add_missing_same
  has_col_add_missing_mono has_col_cast_str_mono has_col_filter_rows : cols.

(** Reading a location of a store built by allocations and writes. *)
Ltac heap_tac :=
  repeat first [ eapply upd_eq_r; reflexivity | eapply upd_neq_r; [lia|] ];
  first [ reflexivity | eassumption ].

(** One step of the symbolic execution of a program of the store monad. *)
Ltac mstep :=
  cbv zeta beta;
  lazymatch goal with
  | |- bind (alloc _) _ _ = _ => eapply bind_alloc_r
  | |- bind (load _) _ _ = _ => eapply bind_load_r; [heap_tac|]
  | |- bind (ret _) _ _ = _ => eapply bind_ret_r
  | |- bind (assign _ _ _) _ _ = _ => eapply bind_assign_r; [heap_tac|]
  | |- bind (series _ _) _ _ = _ => eapply bind_series_r; [heap_tac|eauto with cols|]
  | |- bind (if _ then _ else _) _ _ = _ => eapply bind_add_missing_r; [heap_tac|]
  end.

(** ** The scorer computes [output] and [diagnostics], writing only
    locations it allocates. *)
Lemma mce_filter_scored_run rt MIN_SUM l_in s f :
  heap s l_in = Some f -> l_in < next s ->
  exists s',
    mce_filter_scored rt MIN_SUM l_in s = Some ((4 + next s, diagnostics rt MIN_SUM f), s') /\
    heap s' (4 + next s) = Some (output rt MIN_SUM f) /\
    (forall l, l < next s -> heap s' l = heap s l) /\
    next s' = 5 + next s.
Proof.
  destruct s as [h n]. cbn [heap next]. intros Hin Hlt.
  eexists; split.
  - unfold mce_filter_scored. repeat mstep. reflexivity.
  - cbn [heap next]. split; [heap_tac|]. split; [|reflexivity].
    intros l Hl. repeat (apply upd_neq_r; [lia|]). reflexivity.
Qed.

Lemma score_table_output rt MIN_SUM f :
  score_table rt MIN_SUM f = Some (output rt MIN_SUM f, diagnostics rt MIN_SUM f).
Proof.
  unfold score_table.
  destruct (mce_filter_scored_run rt MIN_SUM 0 (init_store f) f eq_refl (le_n 1))
    as (s' & Hrun & Hout & _).
  rewrite Hrun, Hout. reflexivity.
Qed.

(** ** Rows and columns *)

Lemma assoc_dict_set_same {V} k (v : V) d : assoc k (dict_set k v d) = Some v.
Proof.
  induction d as [|[k' v'] d IH]; cbn.
  - now rewrite String.eqb_refl.
  - destruct (String.eqb k k') eqn:E; cbn; rewrite ?String.eqb_refl, ?E; auto.
Qed.

Lemma assoc_dict_set_other {V} k k' (v : V) d :
  k' <> k -> assoc k' (dict_set k v d) = assoc k' d.
Proof.
  intros Hne. induction d as [|[k0 v0] d IH]; cbn.
  - apply String.eqb_neq in Hne. now rewrite Hne.
  - destruct (String.eqb k k0) eqn:E; cbn.
    + apply String.eqb_eq in E. subst k0.
      apply String.eqb_neq in Hne. now rewrite Hne.
    + now rewrite IH.
Qed.

Lemma row_get_dict_set_same r c v : row_get (dict_set c v r) c = v.
Proof. unfold row_get. now rewrite assoc_dict_set_same. Qed.

Lemma row_get_dict_set_other r c c' v : c' <> c -> row_get (dict_set c v r) c' = row_get r c'.
Proof. intros H. unfold row_get. now rewrite assoc_dict_set_other. Qed.

Lemma nrows_set_col f c v : length v = nrows f -> nrows (set_col f c v) = nrows f.
Proof.
  intros H. unfold nrows, set_col. cbn [rows]. rewrite length_map, length_combine.
  unfold nrows in H. lia.
Qed.

Lemma length_col f c : length (col f c) = nrows f.
Proof. unfold col, nrows. now rewrite length_map. Qed.

Lemma col_set_col_same f c v : length v = nrows f -> col (set_col f c v) c = v.
Proof.
  unfold col, set_col, nrows. cbn [rows]. revert v.
  induction (rows f) as [|[i r] rs IH]; intros [|x v] H; cbn in *; try discriminate; auto.
  rewrite row_get_dict_set_same. f_equal. apply IH. lia.
Qed.

Lemma col_set_col_other f c c' v :
  c' <> c -> length v = nrows f -> col (set_col f c' v) c = col f c.
Proof.
  intros Hne. unfold col, set_col, nrows. cbn [rows]. revert v.
  induction (rows f) as [|[i r] rs IH]; intros [|x v] H; cbn in *; try discriminate; auto.
  rewrite row_get_dict_set_other by congruence. f_equal. apply IH. lia.
Qed.

Lemma nrows_fillna_str f : nrows (fillna_str f) = nrows f.
Proof. unfold nrows, fillna_str. cbn [rows]. now rewrite length_map. Qed.

Lemma nrows_add_missing f c v : nrows (add_missing f c v) = nrows f.
Proof.
  unfold add_missing. destruct (has_col f c); auto.
  apply nrows_set_col. apply repeat_length.
Qed.

Lemma nrows_cast_str rt f c : nrows (cast_str rt f c) = nrows f.
Proof. unfold cast_str. apply nrows_set_col. now rewrite length_map, length_col. Qed.

Lemma columns_set_col f c v x : In x (columns (set_col f c v)) <-> In x (columns f) \/ x = c.
Proof.
  unfold set_col, has_col. cbn [columns].
  destruct (existsb (String.eqb c) (columns f)) eqn:E.
  - split; [tauto|]. intros [H|H]; auto. subst x.
    apply existsb_exists in E as (y & Hy & Heq). apply String.eqb_eq in Heq. now subst.
  - rewrite in_app_iff. cbn. intuition.
Qed.

Lemma score_keywords_bucket rt s : _score_keywords rt s = bucket (keyword_hits rt s).
Proof.
  unfold _score_keywords, bucket.
  destruct (keyword_hits rt s) as [|[|[|[|n]]]]; reflexivity.
Qed.

Lemma bucket_mono n m : n <= m -> (bucket n <= bucket m)%Z.
Proof.
  unfold bucket. intros H.
  destruct (Nat.leb_spec 4 n), (Nat.leb_spec 4 m); lia.
Qed.

Lemma count_true_mono {A} (f g : A -> bool) l :
  (forall x, In x l -> f x = true -> g x = true) -> count_true f l <= count_true g l.
Proof.
  unfold count_true. induction l as [|x l IH]; cbn; intros H; auto.
  destruct (f x) eqn:Ef.
  - rewrite (H x (or_introl eq_refl) Ef). cbn. apply le_n_S. apply IH. eauto.
  - destruct (g x); cbn; [apply le_S|]; apply IH; eauto.
Qed.

(** C3: [_priority] returns "High" exactly for totals of at least 7,
    "Medium" exactly for totals from 4 to 6, and "Low" exactly below 4. *)
Theorem priority_tiers_partition (total : Z) :
  (_priority total = "High" <-> (7 <= total)%Z) /\
  (_priority total = "Medium" <-> (4 <= total < 7)%Z) /\
  (_priority total = "Low" <-> (total < 4)%Z).
Proof.
  unfold _priority.
  destruct (Z.leb_spec 7 total), (Z.leb_spec 4 total);
    repeat split; intros; try discriminate; try reflexivity; lia.
Qed.

Lemma Qle_bool_case x y :
  (Qle_bool x y = true /\ (x <= y)%Q) \/ (Qle_bool x y = false /\ (y < x)%Q).
Proof.
  destruct (Qle_bool x y) eqn:E.
  - left. split; auto. now apply Qle_bool_iff.
  - right. split; auto. apply Qnot_le_lt. intros H. apply Qle_bool_iff in H. congruence.
Qed.

Lemma score_amount_float_iff rt (a : Q) :
  (_score_amount rt (PFloat a) = 2%Z <-> (300000000 <= a)%Q) /\
  (_score_amount rt (PFloat a) = 1%Z <-> (50000000 <= a)%Q /\ (a < 300000000)%Q) /\
  (_score_amount rt (PFloat a) = 0%Z <-> (a < 50000000)%Q).
Proof.
  unfold _score_amount. cbn [py_float].
  destruct (Qle_bool_case 300000000 a) as [[E2 H2]|[E2 H2]];
  destruct (Qle_bool_case 50000000 a) as [[E1 H1]|[E1 H1]];
  rewrite ?E2, ?E1; repeat split; intros; try discriminate; try reflexivity; lra.
Qed.

(** C4: on the amount coerced by [pd.to_numeric(..., errors="coerce").fillna(0)],
    [_score_amount] gives 2 exactly to amounts of at least 3e8, 1 exactly to
    amounts from 5e7 below 3e8, and 0 exactly to smaller amounts; an amount
    that does not parse as a number scores 0. *)
Theorem score_amount_buckets rt (c : cell) :
  let a := match to_numeric rt c with Some q => q | None => 0%Q end in
  (_score_amount rt (PFloat a) = 2%Z <-> (300000000 <= a)%Q) /\
  (_score_amount rt (PFloat a) = 1%Z <-> (50000000 <= a)%Q /\ (a < 300000000)%Q) /\
  (_score_amount rt (PFloat a) = 0%Z <-> (a < 50000000)%Q) /\
  (to_numeric rt c = None -> _score_amount rt (PFloat a) = 0%Z) /\
  (py_float rt c = None -> _score_amount rt c = 0%Z).
Proof.
  intros a. destruct (score_amount_float_iff rt a) as (H2 & H1 & H0).
  split; [exact H2|]. split; [exact H1|]. split; [exact H0|]. split.
  - intros Hn. unfold a. rewrite Hn. reflexivity.
  - intros Hn. unfold _score_amount. rewrite Hn. reflexivity.
Qed.

(** C2 (code bug): [KEYWORDS] lists "измерительная установка" twice, so
    the keyword score of that text is 3, while the number of distinct
    keywords it contains is 2. *)
Theorem keywords_duplicate_entry_counted_twice :
  _score_keywords cpython "измерительная установка" = 3%Z /\
  distinct_keyword_score cpython "измерительная установка" = 2%Z.
Proof. split; vm_compute; reflexivity. Qed.

(** C8: when every keyword contained in the lower-cased text [s1] is also
    contained in the lower-cased text [s2], the keyword score of [s1] is at
    most that of [s2], and so is every total built from it with the same
    other sub-scores. *)
Theorem keyword_score_monotone rt s1 s2 :
  forallb (fun k => implb (contains k (py_lower rt s1)) (contains k (py_lower rt s2))) KEYWORDS
    = true ->
  (_score_keywords rt s1 <= _score_keywords rt s2)%Z /\
  (forall cl amt pat : Z,
     (_score_keywords rt s1 + cl + amt + pat <= _score_keywords rt s2 + cl + amt + pat)%Z).
Proof.
  intros Hsub.
  assert (Hle : (_score_keywords rt s1 <= _score_keywords rt s2)%Z).
  { rewrite !score_keywords_bucket. apply bucket_mono.
    unfold keyword_hits. apply count_true_mono.
    intros k Hk H1. rewrite forallb_forall in Hsub. specialize (Hsub k Hk).
    rewrite H1 in Hsub. exact Hsub. }
  split; [exact Hle|]. intros. lia.
Qed.

Lemma keyword_score_monotone_witness :
  forallb (fun k => implb (contains k (py_lower cpython "сикг")) (contains k (py_lower cpython "СИКГ, датчик")))
    KEYWORDS = true /\
  ((_score_keywords cpython "сикг" <= _score_keywords cpython "СИКГ, датчик")%Z /\
   (forall cl amt pat : Z,
     (_score_keywords cpython "сикг" + cl + amt + pat <=
      _score_keywords cpython "СИКГ, датчик" + cl + amt + pat)%Z)).
Proof.
  assert (H : forallb (fun k => implb (contains k (py_lower cpython "сикг"))
                 (contains k (py_lower cpython "СИКГ, датчик"))) KEYWORDS = true)
    by (vm_compute; reflexivity).
  exact (conj H (keyword_score_monotone cpython "сикг" "СИКГ, датчик" H)).
Defined.

Lemma assoc_in {V} k (v : V) d : assoc k d = Some v -> In (k, v) d.
Proof.
  induction d as [|[k' v'] d IH]; cbn; [discriminate|].
  destruct (String.eqb_spec k k'); intros H; [inversion H; subst; auto|auto].
Qed.

Lemma assoc_key {V} k (v : V) d : In (k, v) d -> exists v', assoc k d = Some v'.
Proof.
  induction d as [|[k' v'] d IH]; cbn; [tauto|].
  destruct (String.eqb_spec k k'); eauto.
  intros [H|H]; [inversion H; congruence|auto].
Qed.

Lemma in_dict_set {V} k (v : V) k0 v0 d :
  In (k, v) (dict_set k0 v0 d) -> (k, v) = (k0, v0) \/ In (k, v) d.
Proof.
  induction d as [|[k' v'] d IH]; cbn; [intuition|].
  destruct (String.eqb k0 k'); cbn; intuition.
Qed.

Lemma dict_set_key {V} k0 (v0 : V) d : exists v, In (k0, v) (dict_set k0 v0 d).
Proof.
  induction d as [|[k' v'] d IH]; cbn; [eauto|].
  destruct (String.eqb_spec k0 k'); cbn; [eauto|].
  destruct IH as [v IH]; eauto.
Qed.

Lemma dict_set_keeps_key {V} k (v : V) k0 v0 d :
  In (k, v) d -> exists v', In (k, v') (dict_set k0 v0 d).
Proof.
  induction d as [|[k' v'] d IH]; cbn; [tauto|].
  destruct (String.eqb_spec k0 k'); cbn; intros [H|H].
  - inversion H; subst. eauto.
  - eauto.
  - inversion H; subst. eauto.
  - destruct (IH H) as [w Hw]. eauto.
Qed.

Section ColsMap.
Variable rt : Runtime.

Lemma cols_map_sound cols : forall k c, In (k, c) (cols_map rt cols) -> In c cols /\ norm rt c = k.
Proof.
  unfold cols_map.
  assert (G : forall cs d, (forall k c, In (k, c) d -> In c cols /\ norm rt c = k) ->
            incl cs cols ->
            forall k c, In (k, c) (fold_left (fun d c => dict_set (py_lower rt (py_strip rt c)) c d) cs d) ->
            In c cols /\ norm rt c = k).
  { induction cs as [|c0 cs IH]; cbn; intros d Hd Hincl; auto.
    apply IH.
    - intros k c H. apply in_dict_set in H as [H|H]; auto.
      inversion H; subst. split; [apply Hincl; now left|reflexivity].
    - intros x Hx. apply Hincl. now right. }
  apply G; [cbn; tauto | apply incl_refl].
Qed.

Lemma cols_map_complete cols : forall c, In c cols -> exists c', In (norm rt c, c') (cols_map rt cols).
Proof.
  unfold cols_map.
  assert (G : forall cs d, (forall c, In c cols -> ~ In c cs -> exists c', In (norm rt c, c') d) ->
            forall c, In c cols -> exists c', In (norm rt c, c')
              (fold_left (fun d c => dict_set (py_lower rt (py_strip rt c)) c d) cs d)).
  { induction cs as [|c0 cs IH]; cbn; intros d Hd c Hc.
    - apply Hd; auto.
    - apply IH; auto. intros x Hx Hn.
      destruct (String.eqb_spec x c0).
      + subst. apply dict_set_key.
      + destruct (Hd x Hx) as [w Hw].
        * intros [H|H]; [congruence|tauto].
        * eapply dict_set_keeps_key; eauto. }
  intros c Hc. apply G with (d := []); auto.
  intros x Hx Hn. contradiction.
Qed.

End ColsMap.

Lemma first_exact_some aliases m c :
  first_exact aliases m = Some c -> exists a, In a aliases /\ assoc a m = Some c.
Proof.
  induction aliases as [|a al IH]; cbn; [discriminate|].
  destruct (assoc a m) eqn:E; intros H.
  - inversion H; subst. eauto.
  - destruct (IH H) as (a' & ? & ?). eauto.
Qed.

Lemma first_exact_none aliases m :
  first_exact aliases m = None -> forall a, In a aliases -> assoc a m = None.
Proof.
  induction aliases as [|a al IH]; cbn; [tauto|].
  destruct (assoc a m) eqn:E; [discriminate|].
  intros H x [<-|Hx]; auto.
Qed.

Lemma first_containing_some m aliases c :
  first_containing m aliases = Some c ->
  exists k a, In (k, c) m /\ In a aliases /\ contains a k = true.
Proof.
  induction m as [|[k c'] m IH]; cbn; [discriminate|].
  destruct (any (fun a => contains a k) aliases) eqn:E; intros H.
  - inversion H; subst. unfold any in E. apply existsb_exists in E as (a & ? & ?). eauto 6.
  - destruct (IH H) as (k' & a & ? & ? & ?). eauto 6.
Qed.

Lemma first_containing_none m aliases :
  first_containing m aliases = None ->
  forall k c a, In (k, c) m -> In a aliases -> contains a k = false.
Proof.
  induction m as [|[k c'] m IH]; cbn; [tauto|].
  destruct (any (fun a => contains a k) aliases) eqn:E; [discriminate|].
  intros H k' c a [Heq|Hin] Ha.
  - inversion Heq; subst. unfold any in E.
    destruct (contains a k') eqn:Ec; auto.
    assert (existsb (fun a => contains a k') aliases = true) by (apply existsb_exists; eauto).
    congruence.
  - eauto.
Qed.

Lemma prefixb_refl s : prefixb s s = true.
Proof. induction s; cbn; auto. now rewrite Ascii.eqb_refl. Qed.

Lemma contains_refl s : contains s s = true.
Proof. destruct s; cbn; auto. rewrite Ascii.eqb_refl, prefixb_refl. reflexivity. Qed.

Lemma find_col_in rt cols aliases c :
  _find_col rt cols aliases = Some c ->
  In c cols /\ exists a, In a aliases /\ contains a (norm rt c) = true.
Proof.
  unfold _find_col. destruct (first_exact aliases (cols_map rt cols)) as [c0|] eqn:E.
  - intros H. inversion H; subst c0.
    destruct (first_exact_some _ _ _ E) as (a & Ha & Hs).
    apply assoc_in, cols_map_sound in Hs as [Hc Hn].
    split; auto. exists a. split; auto. rewrite Hn. apply contains_refl.
  - intros H. destruct (first_containing_some _ _ _ H) as (k & a & Hk & Ha & Hca).
    apply cols_map_sound in Hk as [Hc Hn]. subst k. eauto.
Qed.

Lemma find_col_exact rt cols aliases :
  (exists a c, In a aliases /\ In c cols /\ norm rt c = a) ->
  exists c, _find_col rt cols aliases = Some c /\ In c cols /\ In (norm rt c) aliases.
Proof.
  intros (a & c & Ha & Hc & Hn).
  unfold _find_col. destruct (first_exact aliases (cols_map rt cols)) as [c0|] eqn:E.
  - destruct (first_exact_some _ _ _ E) as (a' & Ha' & Hs).
    apply assoc_in, cols_map_sound in Hs as [Hc0 Hn0].
    exists c0. subst a'. auto.
  - exfalso. destruct (cols_map_complete rt cols c Hc) as [c' Hc'].
    rewrite Hn in Hc'. destruct (assoc_key _ _ _ Hc') as [v Hv].
    rewrite (first_exact_none _ _ E a Ha) in Hv. discriminate.
Qed.

Lemma find_col_none rt cols aliases :
  _find_col rt cols aliases = None ->
  forall a c, In a aliases -> In c cols -> contains a (norm rt c) = false.
Proof.
  unfold _find_col. destruct (first_exact aliases (cols_map rt cols)); [discriminate|].
  intros H a c Ha Hc. destruct (cols_map_complete rt cols c Hc) as [c' Hc'].
  eapply first_containing_none; eauto.
Qed.

Lemma find_col_contains rt cols aliases :
  (exists a c, In a aliases /\ In c cols /\ contains a (norm rt c) = true) ->
  exists c, _find_col rt cols aliases = Some c.
Proof.
  intros (a & c & Ha & Hc & Hca).
  destruct (_find_col rt cols aliases) as [c'|] eqn:E; eauto.
  rewrite (find_col_none _ _ _ E a c Ha Hc) in Hca. discriminate.
Qed.

Lemma has_col_in f x : has_col f x = true <-> In x (columns f).
Proof.
  unfold has_col. rewrite existsb_exists. split.
  - intros (y & Hy & E). apply String.eqb_eq in E. now subst.
  - intros H. exists x. split; auto. apply String.eqb_refl.
Qed.

Lemma has_col_not_in f x : has_col f x = false <-> ~ In x (columns f).
Proof. rewrite <- has_col_in. destruct (has_col f x); intuition congruence. Qed.

Lemma detected_col rt cols aliases d :
  py_or (_find_col rt cols aliases) d = d \/ In (py_or (_find_col rt cols aliases) d) cols.
Proof.
  destruct (_find_col rt cols aliases) as [c|] eqn:E; cbn; auto.
  destruct (String.eqb c ""); auto.
  right. now apply find_col_in in E as [E _].
Qed.

Lemma col_add_missing_other f c c' v : c' <> c -> col (add_missing f c' v) c = col f c.
Proof.
  intros H. unfold add_missing. destruct (has_col f c'); auto.
  apply col_set_col_other; auto. apply repeat_length.
Qed.

Lemma col_add_missing_new f c v : has_col f c = false -> col (add_missing f c v) c = repeat v (nrows f).
Proof.
  intros H. unfold add_missing. rewrite H. apply col_set_col_same, repeat_length.
Qed.

Lemma col_cast_str_other rt f c c' : c' <> c -> col (cast_str rt f c') c = col f c.
Proof.
  intros H. unfold cast_str. apply col_set_col_other; auto. now rewrite length_map, length_col.
Qed.

Lemma col_cast_str_same rt f c :
  col (cast_str rt f c) c = map (fun x => PStr (py_str rt x)) (col f c).
Proof. unfold cast_str. apply col_set_col_same. now rewrite length_map, length_col. Qed.

Lemma prepared_eq rt f :
  prepared rt f =
  let '(name_col, company_col, amount_col) := detect rt (fillna_str f) in
  cast_str rt (cast_str rt
    (add_missing (add_missing (add_missing (fillna_str f) name_col (PStr "")) company_col (PStr ""))
       amount_col (PInt 0)) name_col) company_col.
Proof. reflexivity. Qed.

Lemma map_cast_empty rt n :
  map (fun x => PStr (py_str rt x)) (repeat (PStr "") n) = repeat (PStr "") n.
Proof. induction n; cbn; congruence. Qed.

Lemma columns_add_missing g x y v :
  In x (columns (add_missing g y v)) -> In x (columns g) \/ x = y.
Proof.
  unfold add_missing. destruct (has_col g y); auto.
  intros E. apply columns_set_col in E as [E|E]; auto.
Qed.

(** C6: [_find_col] returns the first column whose normalised header equals
    an alias, else the first one whose normalised header contains an alias,
    else nothing; the scorer then falls back to the default names and adds
    a missing name or company column filled with empty strings and a missing
    amount column filled with zeros. *)
Theorem column_detection rt (cols aliases : list string) (f : frame) :
  ((exists a c, In a aliases /\ In c cols /\ norm rt c = a) ->
     exists c, _find_col rt cols aliases = Some c /\ In c cols /\ In (norm rt c) aliases) /\
  (forall c, _find_col rt cols aliases = Some c ->
     In c cols /\ exists a, In a aliases /\ contains a (norm rt c) = true) /\
  (_find_col rt cols aliases = None <->
     forall a c, In a aliases -> In c cols -> contains a (norm rt c) = false) /\
  (let '(name_col, company_col, amount_col) := detect rt (fillna_str f) in
   (_find_col rt (columns f) NAME_ALIASES = None -> name_col = "Название") /\
   (_find_col rt (columns f) COMPANY_ALIASES = None -> company_col = "Компания") /\
   (_find_col rt (columns f) AMOUNT_ALIASES = None -> amount_col = "Сумма") /\
   has_col (prepared rt f) name_col = true /\
   has_col (prepared rt f) company_col = true /\
   has_col (prepared rt f) amount_col = true /\
   (has_col f name_col = false -> col (prepared rt f) name_col = repeat (PStr "") (nrows f)) /\
   (has_col f company_col = false ->
      col (prepared rt f) company_col = repeat (PStr "") (nrows f)) /\
   (has_col f amount_col = false -> col (prepared rt f) amount_col = repeat (PInt 0) (nrows f))).
Proof.
  split; [apply find_col_exact|].
  split; [apply find_col_in|].
  split.
  { split; [apply find_col_none|].
    intros Hall. destruct (_find_col rt cols aliases) as [c|] eqn:E; auto.
    destruct (find_col_in _ _ _ _ E) as (Hc & a & Ha & Hca).
    rewrite (Hall a c Ha Hc) in Hca. discriminate. }
  rewrite !prepared_eq. unfold detect. cbn [columns fillna_str].
  pose proof (detected_col rt (columns f) NAME_ALIASES "Название") as Dn.
  pose proof (detected_col rt (columns f) COMPANY_ALIASES "Компания") as Dc.
  pose proof (detected_col rt (columns f) AMOUNT_ALIASES "Сумма") as Da.
  set (n := py_or (_find_col rt (columns f) NAME_ALIASES) "Название") in *.
  set (c := py_or (_find_col rt (columns f) COMPANY_ALIASES) "Компания") in *.
  set (a := py_or (_find_col rt (columns f) AMOUNT_ALIASES) "Сумма") in *.
  cbv zeta iota beta.
  split; [unfold n; intros ->; reflexivity|].
  split; [unfold c; intros ->; reflexivity|].
  split; [unfold a; intros ->; reflexivity|].
  split; [unfold cast_str; eauto 8 with cols|].
  split; [unfold cast_str; eauto 8 with cols|].
  split; [unfold cast_str; eauto 8 with cols|].
  assert (Hf : forall x, has_col (fillna_str f) x = has_col f x) by reflexivity.
  split; [|split].
  - intros Hn. apply has_col_not_in in Hn as Hn'.
    assert (Hcn : c <> n) by (intros E; destruct Dn as [Dn|Dn]; destruct Dc as [Dc|Dc];
      try congruence; rewrite E in Dc; contradiction).
    assert (Han : a <> n) by (intros E; destruct Dn as [Dn|Dn]; destruct Da as [Da|Da];
      try congruence; rewrite E in Da; contradiction).
    rewrite col_cast_str_other by congruence. rewrite col_cast_str_same.
    rewrite col_add_missing_other by congruence. rewrite col_add_missing_other by congruence.
    rewrite col_add_missing_new by (rewrite Hf; exact Hn).
    rewrite nrows_fillna_str. apply map_cast_empty.
  - intros Hc. apply has_col_not_in in Hc as Hc'.
    assert (Hnc : n <> c) by (intros E; destruct Dn as [Dn|Dn]; destruct Dc as [Dc|Dc];
      try congruence; rewrite <- E in Hc'; contradiction).
    assert (Hac : a <> c) by (intros E; destruct Da as [Da|Da]; destruct Dc as [Dc|Dc];
      try congruence; rewrite E in Da; contradiction).
    rewrite col_cast_str_same, col_cast_str_other by congruence.
    rewrite col_add_missing_other by congruence.
    rewrite col_add_missing_new.
    + rewrite nrows_add_missing, nrows_fillna_str. apply map_cast_empty.
    + destruct (has_col (add_missing (fillna_str f) n (PStr "")) c) eqn:E; auto.
      apply has_col_in in E. unfold add_missing in E.
      destruct (has_col (fillna_str f) n); [contradiction|].
      apply columns_set_col in E as [E|E]; [contradiction|congruence].
  - intros Ha. apply has_col_not_in in Ha as Ha'.
    assert (Hna : n <> a) by (intros E; destruct Dn as [Dn|Dn]; destruct Da as [Da|Da];
      try congruence; rewrite <- E in Ha'; contradiction).
    assert (Hca : c <> a) by (intros E; destruct Da as [Da|Da]; destruct Dc as [Dc|Dc];
      try congruence; rewrite <- E in Ha'; contradiction).
    rewrite !col_cast_str_other by congruence.
    rewrite col_add_missing_new.
    + rewrite !nrows_add_missing, nrows_fillna_str. reflexivity.
    + apply has_col_not_in. intros E.
      apply columns_add_missing in E as [E|E]; [|congruence].
      apply columns_add_missing in E as [E|E]; [contradiction|congruence].
Qed.

(** ** Rows of the output *)

Lemma insert_perm {A} (le : A -> A -> bool) x l : Permutation (insert le x l) (x :: l).
Proof.
  induction l as [|y l IH]; cbn; auto.
  destruct (le x y); auto.
  eapply perm_trans; [apply perm_skip, IH|]. apply perm_swap.
Qed.

Lemma isort_perm {A} (le : A -> A -> bool) l : Permutation (isort le l) l.
Proof.
  induction l as [|x l IH]; cbn; auto.
  eapply perm_trans; [apply insert_perm|]. now apply perm_skip.
Qed.

Lemma nth_error_combine {A B} (l1 : list A) (l2 : list B) i :
  nth_error (combine l1 l2) i =
  match nth_error l1 i, nth_error l2 i with
  | Some a, Some b => Some (a, b)
  | _, _ => None
  end.
Proof.
  revert l2 i. induction l1 as [|a l1 IH]; intros [|b l2] [|i]; cbn; auto.
  destruct (nth_error l1 i); auto.
Qed.

Lemma in_filter_rows g m x :
  In x (rows (filter_rows g m)) -> exists i, nth_error (rows g) i = Some x /\ nth_error m i = Some true.
Proof.
  cbn [rows filter_rows]. intros H.
  apply in_map_iff in H as ([y b] & <- & H). apply filter_In in H as [H Hb]. cbn in Hb |- *. subst b.
  apply In_nth_error in H as [i Hi]. exists i.
  rewrite nth_error_combine in Hi.
  destruct (nth_error (rows g) i), (nth_error m i); try discriminate. injection Hi as -> ->. auto.
Qed.

Lemma in_set_col g c v x :
  In x (rows (set_col g c v)) -> exists y u, In (y, u) (combine (rows g) v) /\ x = (fst y, dict_set c u (snd y)).
Proof.
  cbn [rows set_col]. intros H.
  apply in_map_iff in H as ([[i r] u] & <- & H). now exists (i, r), u.
Qed.

Lemma in_combine_map {A B} (h : A -> B) l y u : In (y, u) (combine l (map h l)) -> u = h y.
Proof.
  induction l as [|a l IH]; cbn; [tauto|].
  intros [E|E]; [congruence|auto].
Qed.

Lemma nth_error_col g c i :
  nth_error (col g c) i = option_map (fun '(_, r) => row_get r c) (nth_error (rows g) i).
Proof. unfold col. apply nth_error_map. Qed.

Lemma nrows_prepared rt f : nrows (prepared rt f) = nrows f.
Proof.
  rewrite prepared_eq. destruct (detect rt (fillna_str f)) as [[n c] a].
  now rewrite !nrows_cast_str, !nrows_add_missing, nrows_fillna_str.
Qed.

Lemma length_kw_of rt f : length (kw_of rt f) = nrows f.
Proof.
  unfold kw_of. destruct (detect rt (fillna_str f)) as [[n c] a].
  now rewrite length_map, length_col, nrows_prepared.
Qed.

Lemma length_cl_of rt f : length (cl_of rt f) = nrows f.
Proof.
  unfold cl_of. destruct (detect rt (fillna_str f)) as [[n c] a].
  now rewrite length_map, length_col, nrows_prepared.
Qed.

Lemma length_pat_of rt f : length (pat_of rt f) = nrows f.
Proof.
  unfold pat_of. destruct (detect rt (fillna_str f)) as [[n c] a].
  now rewrite length_map, length_col, nrows_prepared.
Qed.

Lemma length_amt_of rt f : length (amt_of rt f) = nrows f.
Proof.
  unfold amt_of, amt_vals_of. destruct (detect rt (fillna_str f)) as [[n c] a].
  now rewrite !length_map, length_col, nrows_prepared.
Qed.

Lemma length_map4 {A B C D E} (h : A -> B -> C -> D -> E) l1 l2 l3 l4 n :
  length l1 = n -> length l2 = n -> length l3 = n -> length l4 = n ->
  length (map4 h l1 l2 l3 l4) = n.
Proof.
  intros H1 H2 H3 H4. unfold map4. rewrite length_map, !length_combine. lia.
Qed.

Ltac len_tac :=
  repeat first
    [ rewrite nrows_set_col by len_tac
    | rewrite length_map
    | rewrite length_col
    | rewrite nrows_prepared
    | rewrite length_kw_of | rewrite length_cl_of | rewrite length_pat_of | rewrite length_amt_of ];
  try reflexivity.

Lemma nrows_scored rt f : nrows (scored rt f) = nrows f.
Proof.
  unfold scored. rewrite nrows_set_col; len_tac.
  apply length_map4; len_tac.
Qed.

Lemma scored_score_cols rt f :
  col (scored rt f) "Score_keywords(0-4)" = map PInt (kw_of rt f) /\
  col (scored rt f) "Score_client(0-3)" = map PInt (cl_of rt f) /\
  col (scored rt f) "Score_pattern(0-1)" = map PInt (pat_of rt f).
Proof.
  unfold scored.
  rewrite !(col_set_col_other (set_col (set_col (set_col (set_col _ _ _) _ _) _ _) _ _) _ "Score_total(0-10)")
    by (discriminate || (apply length_map4; len_tac)).
  split; [|split].
  - rewrite !col_set_col_other by (discriminate || len_tac).
    apply col_set_col_same. len_tac.
  - rewrite !col_set_col_other by (discriminate || len_tac).
    apply col_set_col_same. len_tac.
  - apply col_set_col_same. len_tac.
Qed.

Lemma reason_not_fallback r :
  (cell_pos (row_get r "Score_keywords(0-4)") || cell_pos (row_get r "Score_client(0-3)")
   || cell_pos (row_get r "Score_pattern(0-1)")) = true ->
  _reason r <> "значимых совпадений нет".
Proof.
  unfold _reason.
  destruct (cell_pos (row_get r "Score_keywords(0-4)")), (cell_pos (row_get r "Score_client(0-3)")),
    (cell_pos (row_get r "Score_amount(0-2)")), (cell_pos (row_get r "Score_pattern(0-1)"));
    cbn; discriminate.
Qed.

Lemma cell_pos_int k : cell_pos (PInt k) = Z.leb 1 k.
Proof. cbn. destruct (Z.ltb_spec 0 k), (Z.leb_spec 1 k); auto; lia. Qed.

Lemma score_col_at rt f c ks i x k :
  col (scored rt f) c = map PInt ks -> nth_error (rows (scored rt f)) i = Some x ->
  nth_error ks i = Some k -> row_get (snd x) c = PInt k.
Proof.
  intros Hc Hx Hk.
  pose proof (nth_error_col (scored rt f) c i) as E.
  rewrite Hc, nth_error_map, Hk, Hx in E. destruct x. cbn in E |- *. congruence.
Qed.

Lemma mask_at_base {A} (bm : list bool) (sm : list A) (h : bool -> A -> bool) i :
  (forall b a, h b a = true -> b = true) ->
  nth_error (map2 h bm sm) i = Some true -> nth_error bm i = Some true.
Proof.
  intros Hh. unfold map2. rewrite nth_error_map, nth_error_combine.
  destruct (nth_error bm i) as [b|]; [|discriminate].
  destruct (nth_error sm i) as [a|]; [|discriminate].
  intros E. injection E as E. now rewrite (Hh b a E).
Qed.

Lemma map3_at {A B C D} (h : A -> B -> C -> D) l1 l2 l3 i d :
  nth_error (map3 h l1 l2 l3) i = Some d ->
  exists a b c, nth_error l1 i = Some a /\ nth_error l2 i = Some b /\ nth_error l3 i = Some c /\
    h a b c = d.
Proof.
  unfold map3. rewrite nth_error_map, !nth_error_combine.
  destruct (nth_error l1 i) as [a|]; [|discriminate].
  destruct (nth_error l2 i) as [b|]; [|discriminate].
  destruct (nth_error l3 i) as [c|]; [|discriminate].
  intros E. injection E as E. now exists a, b, c.
Qed.

Lemma selected_row_pos rt MIN_SUM f x :
  In x (rows (filter_rows (scored rt f) (map2 andb (base_mask rt f) (sum_mask rt MIN_SUM f)))) ->
  (cell_pos (row_get (snd x) "Score_keywords(0-4)") || cell_pos (row_get (snd x) "Score_client(0-3)")
   || cell_pos (row_get (snd x) "Score_pattern(0-1)")) = true.
Proof.
  intros H. apply in_filter_rows in H as (i & Hx & Hm).
  apply mask_at_base in Hm; [|intros b a E; now apply andb_prop in E as [E _]].
  unfold base_mask in Hm.
  apply map3_at in Hm as (k & c & p & Ek & Ec & Ep & Eb).
  destruct (scored_score_cols rt f) as (Hk & Hc & Hp).
  rewrite (score_col_at _ _ _ _ _ _ _ Hk Hx Ek), (score_col_at _ _ _ _ _ _ _ Hc Hx Ec),
    (score_col_at _ _ _ _ _ _ _ Hp Hx Ep), !cell_pos_int.
  exact Eb.
Qed.

Lemma rows_sort_values rt amount_col g :
  rows (sort_values rt amount_col g) = isort (fun a b => row_le rt amount_col (snd a) (snd b)) (rows g).
Proof. reflexivity. Qed.

Lemma in_output_presorted rt MIN_SUM f x :
  In x (rows (output rt MIN_SUM f)) -> In x (rows (presorted rt MIN_SUM f)).
Proof.
  unfold output. destruct (detect rt (fillna_str f)) as [[n c] a].
  rewrite rows_sort_values. apply Permutation_in, isort_perm.
Qed.

Lemma presorted_row_reason rt MIN_SUM f x :
  In x (rows (presorted rt MIN_SUM f)) ->
  (cell_pos (row_get (snd x) "Score_keywords(0-4)") || cell_pos (row_get (snd x) "Score_client(0-3)")
   || cell_pos (row_get (snd x) "Score_pattern(0-1)")) = true /\
  row_get (snd x) "Причина" <> PStr "значимых совпадений нет".
Proof.
  unfold presorted. intros Hx.
  apply in_set_col in Hx as (y & u & Hy & ->).
  pose proof (in_combine_l _ _ _ _ Hy) as Hy1.
  apply in_combine_map in Hy. subst u.
  apply in_set_col in Hy1 as (z & v & Hz & ->).
  apply in_combine_l, selected_row_pos in Hz.
  destruct z as [i r]. cbn [fst snd] in *.
  rewrite row_get_dict_set_same.
  rewrite !(row_get_dict_set_other _ "Причина") by discriminate.
  rewrite !(row_get_dict_set_other _ "Priority") by discriminate.
  split; [exact Hz|].
  intros E. injection E as E. revert E. apply reason_not_fallback.
  rewrite !(row_get_dict_set_other _ "Priority") by discriminate. exact Hz.
Qed.

(** C10: every row of the scored output has a positive keyword, client or
    pattern sub-score, and its reason is never the text
    "значимых совпадений нет". *)
Theorem output_rows_have_reason rt MIN_SUM f :
  match score_table rt MIN_SUM f with
  | Some (out, _) =>
      Forall (fun '(_, r) =>
        (cell_pos (row_get r "Score_keywords(0-4)") || cell_pos (row_get r "Score_client(0-3)")
         || cell_pos (row_get r "Score_pattern(0-1)")) = true /\
        row_get r "Причина" <> PStr "значимых совпадений нет") (rows out)
  | None => False
  end.
Proof.
  rewrite score_table_output. apply Forall_forall. intros [i r] Hx.
  exact (presorted_row_reason rt MIN_SUM f (i, r) (in_output_presorted rt MIN_SUM f (i, r) Hx)).
Qed.

Lemma columns_add_missing_iff g x y v :
  In x (columns (add_missing g y v)) <-> In x (columns g) \/ x = y.
Proof.
  unfold add_missing. destruct (has_col g y) eqn:E.
  - split; [tauto|]. intros [H|H]; auto. subst. now apply has_col_in.
  - apply columns_set_col.
Qed.

Lemma columns_cast_str_iff rt g x c :
  In x (columns (cast_str rt g c)) <-> In x (columns g) \/ x = c.
Proof. apply columns_set_col. Qed.

Lemma in_added_columns x :
  In x added_columns <->
  x = "Score_keywords(0-4)" \/ x = "Score_client(0-3)" \/ x = "Score_amount(0-2)" \/
  x = "Score_pattern(0-1)" \/ x = "Score_total(0-10)" \/ x = "Priority" \/ x = "Причина".
Proof. cbn. split; intros H; repeat destruct H as [H|H]; subst; tauto. Qed.

Lemma columns_filter_rows g m : columns (filter_rows g m) = columns g.
Proof. reflexivity. Qed.

Lemma columns_sort_values rt amount_col g : columns (sort_values rt amount_col g) = columns g.
Proof. reflexivity. Qed.

Lemma columns_output rt MIN_SUM f x :
  In x (columns (output rt MIN_SUM f)) <->
  (In x (columns f) \/
   x = d_name_col (diagnostics rt MIN_SUM f) \/ x = d_company_col (diagnostics rt MIN_SUM f) \/
   x = d_amount_col (diagnostics rt MIN_SUM f)) \/ In x added_columns.
Proof.
  unfold output, diagnostics, presorted, scored.
  rewrite prepared_eq.
  destruct (detect rt (fillna_str f)) as [[n c] a].
  cbn [d_name_col d_company_col d_amount_col].
  rewrite columns_sort_values, !columns_set_col, columns_filter_rows, !columns_set_col,
    !columns_cast_str_iff, !columns_add_missing_iff, in_added_columns.
  cbn [columns fillna_str]. tauto.
Qed.

(** C7 (counterexample): the output of a table whose headers match no alias
    has a column "Название" that is neither an input column nor a score,
    priority or reason column. *)
Lemma scoring_adds_default_columns :
  exists out d,
    score_table cpython 0 (mkFrame ["x"] [(0, [("x", PStr "a")])]) = Some (out, d) /\
    In "Название" (columns out) /\ ~ In "Название" ["x"] /\ ~ In "Название" added_columns.
Proof.
  eexists _, _. split; [apply score_table_output|].
  split; [apply (proj1 (has_col_in _ _)); vm_compute; reflexivity|].
  split; cbn; intuition discriminate.
Qed.

(** C7 (amended): the scorer leaves its input frame, and every frame it did
    not allocate, unchanged; it returns a fresh frame whose columns are the
    input's, the detected name, company and amount columns (synthesized if
    absent) and the seven score, priority and reason columns, with the
    diagnostics: detected column names, per-criterion hit counts and the
    input and output row counts. *)
Theorem scoring_preserves_input rt MIN_SUM s l_in f :
  heap s l_in = Some f -> l_in < next s ->
  exists l_out s' d out,
    mce_filter_scored rt MIN_SUM l_in s = Some ((l_out, d), s') /\
    next s <= l_out /\ l_out <> l_in /\
    heap s' l_in = Some f /\ (forall l, l < next s -> heap s' l = heap s l) /\
    heap s' l_out = Some out /\
    (forall x, In x (columns out) <->
       (In x (columns f) \/ x = d_name_col d \/ x = d_company_col d \/ x = d_amount_col d)
       \/ In x added_columns) /\
    d_name_col d = py_or (_find_col rt (columns f) NAME_ALIASES) "Название" /\
    d_company_col d = py_or (_find_col rt (columns f) COMPANY_ALIASES) "Компания" /\
    d_amount_col d = py_or (_find_col rt (columns f) AMOUNT_ALIASES) "Сумма" /\
    d_kw_hits d = hits (kw_of rt f) /\ d_client_hits d = hits (cl_of rt f) /\
    d_pattern_hits d = hits (pat_of rt f) /\
    d_total_in d = nrows f /\ d_total_out d = nrows out.
Proof.
  intros Hin Hlt.
  destruct (mce_filter_scored_run rt MIN_SUM l_in s f Hin Hlt) as (s' & Hrun & Hout & Hkeep & _).
  exists (4 + next s), s', (diagnostics rt MIN_SUM f), (output rt MIN_SUM f).
  split; [exact Hrun|]. split; [lia|]. split; [lia|].
  split; [rewrite Hkeep; auto|]. split; [exact Hkeep|]. split; [exact Hout|].
  split; [apply columns_output|].
  unfold diagnostics. destruct (detect rt (fillna_str f)) as [[n c] a] eqn:Hd.
  unfold detect in Hd. cbn [columns fillna_str] in Hd. injection Hd as <- <- <-.
  cbn [d_name_col d_company_col d_amount_col d_kw_hits d_client_hits d_pattern_hits
    d_total_in d_total_out].
  rewrite nrows_scored. repeat split; reflexivity.
Qed.

Lemma scoring_preserves_input_witness :
  let f := mkFrame ["Название"] [(0, [("Название", PStr "СИКГ")])] in
  (heap (init_store f) 0 = Some f /\ 0 < next (init_store f)) /\
  exists l_out s' d out,
    mce_filter_scored cpython 0 0 (init_store f) = Some ((l_out, d), s') /\
    next (init_store f) <= l_out /\ l_out <> 0 /\
    heap s' 0 = Some f /\ (forall l, l < next (init_store f) -> heap s' l = heap (init_store f) l) /\
    heap s' l_out = Some out /\
    (forall x, In x (columns out) <->
       (In x (columns f) \/ x = d_name_col d \/ x = d_company_col d \/ x = d_amount_col d)
       \/ In x added_columns) /\
    d_name_col d = py_or (_find_col cpython (columns f) NAME_ALIASES) "Название" /\
    d_company_col d = py_or (_find_col cpython (columns f) COMPANY_ALIASES) "Компания" /\
    d_amount_col d = py_or (_find_col cpython (columns f) AMOUNT_ALIASES) "Сумма" /\
    d_kw_hits d = hits (kw_of cpython f) /\ d_client_hits d = hits (cl_of cpython f) /\
    d_pattern_hits d = hits (pat_of cpython f) /\
    d_total_in d = nrows f /\ d_total_out d = nrows out.
Proof.
  intros f.
  assert (H1 : heap (init_store f) 0 = Some f) by reflexivity.
  assert (H2 : 0 < next (init_store f)) by (cbn; lia).
  exact (conj (conj H1 H2) (scoring_preserves_input cpython 0 (init_store f) 0 f H1 H2)).
Defined.

Lemma getitem_key_exn j k e : getitem_key j k = inl e -> exists m, e = Exc m.
Proof.
  unfold getitem_key. destruct j; try (destruct (assoc _ _)); intros H; inversion H; eauto.
Qed.

Lemma getitem_idx_exn j i e : getitem_idx j i = inl e -> exists m, e = Exc m.
Proof.
  unfold getitem_idx. destruct j; try (destruct (nth_error _ _)); try (destruct (Nat.ltb _ _));
    intros H; inversion H; eauto.
Qed.

Lemma json_strip_exn rt j e : json_strip rt j = inl e -> exists m, e = Exc m.
Proof. unfold json_strip. destruct j; intros H; inversion H; eauto. Qed.

Lemma and_then_exn {A B} (m : py_exn + A) (k : A -> py_exn + B) e :
  (forall e', m = inl e' -> exists msg, e' = Exc msg) ->
  (forall a e', k a = inl e' -> exists msg, e' = Exc msg) ->
  and_then m k = inl e -> exists msg, e = Exc msg.
Proof.
  intros Hm Hk. unfold and_then. destruct m as [e'|a]; eauto.
  intros H. injection H as <-. eauto.
Qed.

Lemma openai_try_base rt r m : openai_try rt r = inl (BaseExc m) -> r = PostRaised (BaseExc m).
Proof.
  destruct r as [e|status text body]; cbn; [congruence|].
  destruct (Z.leb 200 status && Z.ltb status 300); [|discriminate].
  destruct body as [msg|data]; [discriminate|].
  intros H. exfalso.
  assert (exists msg, BaseExc m = Exc msg) as [msg E]; [|discriminate E].
  revert H. apply and_then_exn; [intros; eapply getitem_key_exn; eauto|intros x e' H].
  revert H. apply and_then_exn; [intros; eapply getitem_idx_exn; eauto|intros y e'' H].
  revert H. apply and_then_exn; [intros; eapply getitem_key_exn; eauto|intros z e3 H].
  revert H. apply and_then_exn; [intros; eapply getitem_key_exn; eauto|intros w e4 H].
  eapply json_strip_exn; eauto.
Qed.

(** C9: unless the HTTP call is cancelled ([BaseException]), [call_openai]
    returns a string to its caller: an HTTP error status gives
    "⚠️ OpenAI <status>: <text>" and any other exception gives
    "⚠️ Локальная ошибка: <message>". *)
Theorem call_openai_returns_message rt post lines :
  (forall m, post (openai_messages lines) <> PostRaised (BaseExc m)) ->
  exists s, call_openai rt post lines = inr s /\
    (forall status text body, post (openai_messages lines) = PostResponse status text body ->
       ~ (200 <= status < 300)%Z -> s = "⚠️ OpenAI " ++ z_repr status ++ ": " ++ text) /\
    (forall m, post (openai_messages lines) = PostRaised (Exc m) -> s = "⚠️ Локальная ошибка: " ++ m).
Proof.
  intros Hbase. unfold call_openai.
  destruct (openai_try rt (post (openai_messages lines))) as [e|s] eqn:E.
  2: { exists s. split; [reflexivity|]. split.
       - intros status text body Hp Hs. rewrite Hp in E. cbn in E.
         destruct (Z.leb_spec 200 status), (Z.ltb_spec status 300); cbn in E; try lia; discriminate.
       - intros m Hp. rewrite Hp in E. discriminate. }
  destruct e as [status text|msg|msg].
  - eexists. split; [reflexivity|]. split.
    + intros st tx body Hp Hs. rewrite Hp in E. cbn in E.
      destruct (Z.leb_spec 200 st), (Z.ltb_spec st 300); cbn in E; try lia; congruence.
    + intros m Hp. rewrite Hp in E. discriminate.
  - eexists. split; [reflexivity|]. split.
    + intros st tx body Hp Hs. rewrite Hp in E. cbn in E.
      destruct (Z.leb_spec 200 st), (Z.ltb_spec st 300); cbn in E; try lia; discriminate.
    + intros m Hp. rewrite Hp in E. cbn in E. congruence.
  - apply openai_try_base in E. exfalso. exact (Hbase msg E).
Qed.

Lemma call_openai_returns_message_witness :
  (forall m, PostResponse 500 "Internal Server Error" (inl "Expecting value") <> PostRaised (BaseExc m)) /\
  exists s, call_openai cpython (fun _ => PostResponse 500 "Internal Server Error" (inl "Expecting value"))
              ["user: привет"] = inr s /\
    (forall status text body,
       PostResponse 500 "Internal Server Error" (inl "Expecting value") = PostResponse status text body ->
       ~ (200 <= status < 300)%Z -> s = "⚠️ OpenAI " ++ z_repr status ++ ": " ++ text) /\
    (forall m, PostResponse 500 "Internal Server Error" (inl "Expecting value") = PostRaised (Exc m) ->
       s = "⚠️ Локальная ошибка: " ++ m).
Proof.
  assert (H : forall m, PostResponse 500 "Internal Server Error" (inl "Expecting value") <> PostRaised (BaseExc m))
    by (intros m; discriminate).
  exact (conj H (call_openai_returns_message cpython
    (fun _ => PostResponse 500 "Internal Server Error" (inl "Expecting value")) ["user: привет"] H)).
Defined.

(** ** Sorting *)

Section SortProps.
Variable A : Type.
Variable le : A -> A -> bool.
Hypothesis le_total : forall x y, le x y = false -> le y x = true.
Hypothesis le_trans : forall x y z, le x y = true -> le y z = true -> le x z = true.

Lemma le_refl x : le x x = true.
Proof. destruct (le x x) eqn:E; [reflexivity|rewrite <- E; exact (le_total x x E)]. Qed.

Lemma insert_sorted x l :
  Sorted (fun a b => le a b = true) l -> Sorted (fun a b => le a b = true) (insert le x l).
Proof.
  induction 1 as [|y l Hl IH Hhd]; cbn.
  - repeat constructor.
  - destruct (le x y) eqn:E.
    + constructor; [constructor; auto|constructor; exact E].
    + constructor; [exact IH|].
      destruct l as [|z l]; cbn; [constructor; auto|].
      inversion Hhd; subst.
      destruct (le x z); constructor; auto.
Qed.

Lemma isort_sorted l : StronglySorted (fun a b => le a b = true) (isort le l).
Proof.
  apply Sorted_StronglySorted; [intros x y z; apply le_trans|].
  induction l as [|x l IH]; cbn; [constructor|]. now apply insert_sorted.
Qed.

Definition equivb (x y : A) : bool := le x y && le y x.

Lemma filter_insert x y l :
  filter (equivb x) (insert le y l) =
  if equivb x y then y :: filter (equivb x) l else filter (equivb x) l.
Proof.
  induction l as [|z l IH]; cbn; [destruct (equivb x y); reflexivity|].
  destruct (le y z) eqn:Eyz; cbn.
  - destruct (equivb x y); reflexivity.
  - rewrite IH. destruct (equivb x y) eqn:Exy, (equivb x z) eqn:Exz; auto.
    exfalso. unfold equivb in Exy, Exz.
    apply andb_prop in Exy as [_ H1]. apply andb_prop in Exz as [H2 _].
    rewrite (le_trans _ _ _ H1 H2) in Eyz. discriminate.
Qed.

Lemma filter_isort x l : filter (equivb x) (isort le l) = filter (equivb x) l.
Proof.
  induction l as [|y l IH]; cbn; auto.
  rewrite filter_insert, IH. destruct (equivb x y); reflexivity.
Qed.

End SortProps.
Arguments equivb {A} le x y.

Lemma strongly_sorted_pair {A} (R : A -> A -> Prop) l1 a l2 b l3 :
  StronglySorted R (l1 ++ a :: l2 ++ b :: l3)%list -> R a b.
Proof.
  induction l1 as [|x l1 IH]; cbn; intros H.
  - apply StronglySorted_inv in H as [_ H]. rewrite Forall_forall in H.
    apply H, in_or_app. right. now left.
  - apply StronglySorted_inv in H as [H _]. auto.
Qed.

Lemma filter_pair {A} (P : A -> bool) l1 a l2 b l3 :
  P a = true -> P b = true ->
  filter P (l1 ++ a :: l2 ++ b :: l3)%list = (filter P l1 ++ a :: filter P l2 ++ b :: filter P l3)%list.
Proof.
  intros Ha Hb. rewrite filter_app. cbn. rewrite Ha, filter_app. cbn. now rewrite Hb.
Qed.

Lemma strongly_sorted_map_filter {A B} (R : B -> B -> Prop) (g : A -> B) (P : A -> bool) l :
  StronglySorted R (map g l) -> StronglySorted R (map g (filter P l)).
Proof.
  induction l as [|x l IH]; cbn; intros H; [constructor|].
  apply StronglySorted_inv in H as [H1 H2].
  destruct (P x); cbn; auto.
  constructor; auto. rewrite Forall_forall in H2 |- *.
  intros y Hy. apply in_map_iff in Hy as (z & <- & Hz). apply filter_In in Hz as [Hz _].
  apply H2, in_map, Hz.
Qed.

Lemma strongly_sorted_map_mask {A B} (R : B -> B -> Prop) (g : A -> B) l m :
  StronglySorted R (map g l) -> StronglySorted R (map g (map fst (filter snd (combine l m)))).
Proof.
  revert m. induction l as [|x l IH]; intros [|b m]; cbn; intros H; try constructor.
  apply StronglySorted_inv in H as [H1 H2].
  destruct b; cbn; auto.
  constructor; auto. rewrite Forall_forall in H2 |- *.
  intros y Hy. apply in_map_iff in Hy as (z & <- & Hz). apply in_map_iff in Hz as ([w c] & <- & Hz).
  apply filter_In in Hz as [Hz _]. apply in_combine_l in Hz. apply H2, in_map, Hz.
Qed.

Definition lex (c1 c2 : comparison) : comparison :=
  match c1 with Eq => c2 | Lt => Lt | Gt => Gt end.

Record cmp_laws {A} (c : A -> A -> comparison) : Prop := {
  cmp_antisym : forall x y, c x y = CompOpp (c y x);
  cmp_eq_l : forall x y z, c x y = Eq -> c x z = c y z;
  cmp_lt_trans : forall x y z, c x y = Lt -> c y z = Lt -> c x z = Lt
}.

Lemma lex_laws {A B} (c1 : A -> A -> comparison) (c2 : B -> B -> comparison) :
  cmp_laws c1 -> cmp_laws c2 -> cmp_laws (fun x y => lex (c1 (fst x) (fst y)) (c2 (snd x) (snd y))).
Proof.
  intros [a1 e1 t1] [a2 e2 t2]. constructor.
  - intros [x1 x2] [y1 y2]; cbn. rewrite (a1 x1 y1), (a2 x2 y2). destruct (c1 y1 x1); reflexivity.
  - intros [x1 x2] [y1 y2] [z1 z2]; cbn.
    destruct (c1 x1 y1) eqn:E; try discriminate. intros H. rewrite (e1 _ _ _ E).
    destruct (c1 y1 z1); cbn; auto.
  - intros [x1 x2] [y1 y2] [z1 z2]; cbn.
    destruct (c1 x1 y1) eqn:E1, (c1 y1 z1) eqn:E2; cbn; try discriminate; intros H1 H2.
    + rewrite (e1 _ _ _ E1), E2. cbn. eauto.
    + rewrite (e1 _ _ _ E1), E2. reflexivity.
    + assert (E3 : c1 z1 y1 = Eq) by (rewrite a1, E2; reflexivity).
      rewrite a1, (e1 _ _ _ E3), a1, E1. reflexivity.
    + rewrite (t1 _ _ _ E1 E2). reflexivity.
Qed.

Definition le_of_cmp {A} (c : A -> A -> comparison) (x y : A) : bool :=
  match c x y with Gt => false | _ => true end.

Lemma le_of_cmp_total {A} (c : A -> A -> comparison) :
  cmp_laws c -> forall x y, le_of_cmp c x y = false -> le_of_cmp c y x = true.
Proof.
  intros L x y. unfold le_of_cmp. rewrite (cmp_antisym c L x y).
  destruct (c y x); cbn; congruence.
Qed.

Lemma le_of_cmp_trans {A} (c : A -> A -> comparison) :
  cmp_laws c -> forall x y z, le_of_cmp c x y = true -> le_of_cmp c y z = true -> le_of_cmp c x z = true.
Proof.
  intros L x y z. unfold le_of_cmp.
  destruct (c x y) eqn:E1, (c y z) eqn:E2; try discriminate; intros _ _.
  - rewrite (cmp_eq_l c L _ _ _ E1), E2. reflexivity.
  - rewrite (cmp_eq_l c L _ _ _ E1), E2. reflexivity.
  - assert (E3 : c z y = Eq) by (rewrite (cmp_antisym c L), E2; reflexivity).
    rewrite (cmp_antisym c L), (cmp_eq_l c L _ _ _ E3), (cmp_antisym c L), E1. reflexivity.
  - rewrite (cmp_lt_trans c L _ _ _ E1 E2). reflexivity.
Qed.

Lemma Qcompare_eq_l a b c : (a ?= b)%Q = Eq -> (a ?= c)%Q = (b ?= c)%Q.
Proof. intros H. apply Qeq_alt in H. now rewrite H. Qed.

Lemma Qcompare_lt_trans a b c : (a ?= b)%Q = Lt -> (b ?= c)%Q = Lt -> (a ?= c)%Q = Lt.
Proof. rewrite <- !Qlt_alt. apply Qlt_trans. Qed.

Lemma Qcmp_opp a b : (a ?= b)%Q = CompOpp (b ?= a)%Q.
Proof. symmetry. apply Qcompare_antisym. Qed.

Lemma cmp_key_laws asc : cmp_laws (cmp_key asc).
Proof.
  constructor.
  - intros [x|] [y|]; cbn; auto. destruct asc; apply Qcmp_opp.
  - intros [x|] [y|] [z|]; cbn; try discriminate; auto; destruct asc; intros H.
    + apply Qeq_alt in H. now rewrite H.
    + apply Qeq_alt in H. now rewrite H.
  - intros [x|] [y|] [z|]; cbn; try discriminate; auto; destruct asc.
    + apply Qcompare_lt_trans.
    + intros H1 H2. exact (Qcompare_lt_trans _ _ _ H2 H1).
Qed.

Definition key_cmp3 (x y : option Q * option Q * option Q) : comparison :=
  lex (lex (cmp_key true (fst (fst x)) (fst (fst y))) (cmp_key false (snd (fst x)) (snd (fst y))))
    (cmp_key false (snd x) (snd y)).

Lemma key_cmp3_laws : cmp_laws key_cmp3.
Proof.
  apply (lex_laws (fun x y => lex (cmp_key true (fst x) (fst y)) (cmp_key false (snd x) (snd y)))).
  - apply lex_laws; apply cmp_key_laws.
  - apply cmp_key_laws.
Qed.

Lemma row_le_key rt amount_col r1 r2 :
  row_le rt amount_col r1 r2 = le_of_cmp key_cmp3 (sort_key rt amount_col r1) (sort_key rt amount_col r2).
Proof.
  unfold row_le, le_of_cmp, key_cmp3, key_cmp.
  destruct (sort_key rt amount_col r1) as [[p1 t1] a1], (sort_key rt amount_col r2) as [[p2 t2] a2].
  cbn. destruct (cmp_key true p1 p2), (cmp_key false t1 t2); reflexivity.
Qed.

Lemma row_le_total rt amount_col r1 r2 :
  row_le rt amount_col r1 r2 = false -> row_le rt amount_col r2 r1 = true.
Proof. rewrite !row_le_key. apply le_of_cmp_total, key_cmp3_laws. Qed.

Lemma row_le_trans rt amount_col r1 r2 r3 :
  row_le rt amount_col r1 r2 = true -> row_le rt amount_col r2 r3 = true ->
  row_le rt amount_col r1 r3 = true.
Proof. rewrite !row_le_key. apply le_of_cmp_trans, key_cmp3_laws. Qed.

Lemma prio_cmp_tier z1 z2 :
  cmp_key true (prio_order (PStr (_priority z1))) (prio_order (PStr (_priority z2))) =
  Nat.compare (tier (PStr (_priority z1))) (tier (PStr (_priority z2))).
Proof.
  unfold _priority. destruct (Z.leb 7 z1), (Z.leb 4 z1), (Z.leb 7 z2), (Z.leb 4 z2); reflexivity.
Qed.

Lemma total_cmp z1 z2 : cmp_key false (Some (inject_Z z1)) (Some (inject_Z z2)) = Z.compare z2 z1.
Proof. cbn. unfold Qcompare. cbn. now rewrite !Z.mul_1_r. Qed.

Lemma lex_claim (t1 t2 : nat) (z1 z2 : Z) a1 a2 :
  (match lex (Nat.compare t1 t2) (lex (Z.compare z2 z1) (cmp_key false a1 a2)) with
   | Gt => false | _ => true end = true ->
   t1 < t2 \/ (t1 = t2 /\ ((z2 < z1)%Z \/ (z1 = z2 /\ amount_le a1 a2)))) /\
  (t1 = t2 /\ z1 = z2 /\ amount_same a1 a2 ->
   match lex (Nat.compare t1 t2) (lex (Z.compare z2 z1) (cmp_key false a1 a2)) with
   | Gt => false | _ => true end = true /\
   match lex (Nat.compare t2 t1) (lex (Z.compare z1 z2) (cmp_key false a2 a1)) with
   | Gt => false | _ => true end = true).
Proof.
  split.
  - destruct (Nat.compare_spec t1 t2); cbn; try discriminate; [|left; exact H].
    intros Hle. right. split; [exact H|].
    destruct (Z.compare_spec z2 z1); cbn in Hle; try discriminate; [|left; exact H0].
    right. split; [lia|].
    destruct a1 as [x|], a2 as [y|]; cbn in Hle |- *; auto; try discriminate.
    apply Qle_alt. destruct (y ?= x)%Q; congruence.
  - intros (-> & -> & Ha). rewrite Nat.compare_refl, Z.compare_refl. cbn.
    destruct a1 as [x|], a2 as [y|]; cbn in Ha |- *; try contradiction; auto.
    apply Qeq_alt in Ha. rewrite Ha, Qcmp_opp, Ha. auto.
Qed.

Lemma row_le_claim rt amount_col r1 r2 z1 z2 :
  row_get r1 "Score_total(0-10)" = PInt z1 -> row_get r1 "Priority" = PStr (_priority z1) ->
  row_get r2 "Score_total(0-10)" = PInt z2 -> row_get r2 "Priority" = PStr (_priority z2) ->
  (row_le rt amount_col r1 r2 = true -> claim_le rt amount_col r1 r2) /\
  (claim_same rt amount_col r1 r2 ->
   row_le rt amount_col r1 r2 = true /\ row_le rt amount_col r2 r1 = true).
Proof.
  intros T1 P1 T2 P2.
  unfold row_le, key_cmp, sort_key, claim_le, claim_same, total_of.
  rewrite T1, P1, T2, P2. cbn [to_numeric cell_int].
  rewrite !prio_cmp_tier, !total_cmp.
  destruct (lex_claim (tier (PStr (_priority z1))) (tier (PStr (_priority z2))) z1 z2
              (to_numeric rt (row_get r1 amount_col)) (to_numeric rt (row_get r2 amount_col)))
    as [H1 H2].
  unfold lex in H1, H2. split; [exact H1|exact H2].
Qed.

Lemma map_fst_set_col g c v :
  length v = nrows g -> map fst (rows (set_col g c v)) = map fst (rows g).
Proof.
  unfold nrows. cbn [rows set_col]. revert v. induction (rows g) as [|[i r] l IH]; intros [|x v];
    cbn; try discriminate; auto.
  intros H. f_equal. apply IH. lia.
Qed.

Lemma map_fst_fillna g : map fst (rows (fillna_str g)) = map fst (rows g).
Proof. cbn [rows fillna_str]. rewrite map_map. apply map_ext. now intros [i r]. Qed.

Lemma map_fst_add_missing g c v : map fst (rows (add_missing g c v)) = map fst (rows g).
Proof.
  unfold add_missing. destruct (has_col g c); auto. apply map_fst_set_col, repeat_length.
Qed.

Lemma map_fst_cast_str rt g c : map fst (rows (cast_str rt g c)) = map fst (rows g).
Proof. unfold cast_str. apply map_fst_set_col. now rewrite length_map, length_col. Qed.

Lemma map_fst_scored rt f : map fst (rows (scored rt f)) = map fst (rows f).
Proof.
  unfold scored. rewrite map_fst_set_col by (apply length_map4; len_tac).
  rewrite !map_fst_set_col by len_tac.
  rewrite prepared_eq. destruct (detect rt (fillna_str f)) as [[n c] a].
  now rewrite !map_fst_cast_str, !map_fst_add_missing, map_fst_fillna.
Qed.

Lemma labels_presorted rt MIN_SUM f :
  StronglySorted lt (map fst (rows f)) -> StronglySorted lt (map fst (rows (presorted rt MIN_SUM f))).
Proof.
  intros H. unfold presorted.
  rewrite map_fst_set_col by (rewrite length_map; reflexivity).
  rewrite map_fst_set_col by (rewrite length_map, length_col; reflexivity).
  cbn [rows filter_rows]. apply strongly_sorted_map_mask. now rewrite map_fst_scored.
Qed.

Lemma in_filter_rows_in g m x : In x (rows (filter_rows g m)) -> In x (rows g).
Proof.
  intros H. apply in_filter_rows in H as (i & Hx & _). eapply nth_error_In; eauto.
Qed.

Lemma scored_total_int rt f x :
  In x (rows (scored rt f)) -> exists z, row_get (snd x) "Score_total(0-10)" = PInt z.
Proof.
  intros Hx.
  assert (Hc : In (row_get (snd x) "Score_total(0-10)") (col (scored rt f) "Score_total(0-10)")).
  { unfold col. apply in_map_iff. exists x. split; [destruct x; reflexivity|exact Hx]. }
  unfold scored in Hc. rewrite col_set_col_same in Hc by (apply length_map4; len_tac).
  unfold map4 in Hc. apply in_map_iff in Hc as ([a [b [c d]]] & E & _).
  rewrite <- E. eexists. reflexivity.
Qed.

Lemma presorted_row_keys rt MIN_SUM f x :
  In x (rows (presorted rt MIN_SUM f)) ->
  exists z, row_get (snd x) "Score_total(0-10)" = PInt z /\ row_get (snd x) "Priority" = PStr (_priority z).
Proof.
  unfold presorted. intros Hx.
  apply in_set_col in Hx as (y & u & Hy & ->).
  apply in_combine_l in Hy.
  apply in_set_col in Hy as (w & v & Hw & ->).
  unfold col in Hw. rewrite map_map in Hw.
  pose proof (in_combine_l _ _ _ _ Hw) as Hw1.
  apply in_combine_map in Hw. subst v.
  apply in_filter_rows_in, scored_total_int in Hw1 as [z Hz].
  exists z. destruct w as [i r]. cbn [fst snd] in *.
  rewrite !(row_get_dict_set_other _ "Причина") by discriminate.
  rewrite (row_get_dict_set_other _ "Priority") by discriminate.
  rewrite row_get_dict_set_same, Hz. split; reflexivity.
Qed.

Lemma output_amount rt MIN_SUM f :
  exists amount_col, output rt MIN_SUM f = sort_values rt amount_col (presorted rt MIN_SUM f) /\
    d_amount_col (diagnostics rt MIN_SUM f) = amount_col.
Proof.
  unfold output, diagnostics. destruct (detect rt (fillna_str f)) as [[n c] a].
  exists a. split; reflexivity.
Qed.

(** C5 (amended): the output rows are sorted by priority tier (High, Medium,
    Low), then by total score descending, then by the amount cell parsed as a
    number descending, where amounts that do not parse (the empty cell among
    them) come after every parsed amount; rows with equal keys keep their
    input order. *)
Theorem output_order rt MIN_SUM f :
  StronglySorted lt (map fst (rows f)) ->
  match score_table rt MIN_SUM f with
  | Some (out, d) =>
      forall l1 a l2 b l3, rows out = (l1 ++ a :: l2 ++ b :: l3)%list ->
        claim_le rt (d_amount_col d) (snd a) (snd b) /\
        (claim_same rt (d_amount_col d) (snd a) (snd b) -> fst a < fst b)
  | None => False
  end.
Proof.
  intros Hf. rewrite score_table_output. cbv beta iota.
  intros l1 a l2 b l3 E.
  destruct (output_amount rt MIN_SUM f) as (am & Eo & ->).
  rewrite Eo, rows_sort_values in E.
  set (L := rows (presorted rt MIN_SUM f)) in *.
  set (le := fun x y : nat * row => row_le rt am (snd x) (snd y)) in *.
  assert (Htot : forall x y, le x y = false -> le y x = true) by (intros x y; apply row_le_total).
  assert (Htr : forall x y z, le x y = true -> le y z = true -> le x z = true)
    by (intros x y z; apply row_le_trans).
  pose proof (isort_sorted _ le Htot Htr L) as Hs. rewrite E in Hs.
  apply strongly_sorted_pair in Hs.
  assert (Ha : In a L).
  { apply (Permutation_in _ (isort_perm le L)). rewrite E. apply in_or_app. right. left; reflexivity. }
  assert (Hb : In b L).
  { apply (Permutation_in _ (isort_perm le L)). rewrite E. apply in_or_app. right. right.
    apply in_or_app. right. left; reflexivity. }
  destruct (presorted_row_keys _ _ _ _ Ha) as (za & Ta & Pa).
  destruct (presorted_row_keys _ _ _ _ Hb) as (zb & Tb & Pb).
  destruct (row_le_claim rt am (snd a) (snd b) za zb Ta Pa Tb Pb) as [Hle Hsame].
  split; [exact (Hle Hs)|].
  intros Hc. destruct (Hsame Hc) as [Hab Hba].
  assert (Eab : equivb le a b = true) by (unfold equivb, le; cbv beta; rewrite Hab, Hba; reflexivity).
  assert (Eaa : equivb le a a = true) by (unfold equivb; rewrite (le_refl _ le Htot a); reflexivity).
  pose proof (filter_isort _ le Htr a L) as Hfl.
  rewrite E, filter_pair in Hfl by assumption.
  pose proof (labels_presorted rt MIN_SUM f Hf) as HL. fold L in HL.
  apply (strongly_sorted_map_filter _ fst (equivb le a)) in HL.
  rewrite <- Hfl, map_app in HL. cbn [map] in HL. rewrite map_app in HL. cbn [map] in HL.
  exact (strongly_sorted_pair _ _ _ _ _ _ HL).
Qed.

Lemma output_order_witness :
  let f := mkFrame ["Название"; "Сумма"]
             [(0, [("Название", PStr "СИКГ"); ("Сумма", PInt 400000000)]);
              (1, [("Название", PStr "газ"); ("Сумма", PStr "")])] in
  StronglySorted lt (map fst (rows f)) /\
  match score_table cpython 0 f with
  | Some (out, d) =>
      forall l1 a l2 b l3, rows out = (l1 ++ a :: l2 ++ b :: l3)%list ->
        claim_le cpython (d_amount_col d) (snd a) (snd b) /\
        (claim_same cpython (d_amount_col d) (snd a) (snd b) -> fst a < fst b)
  | None => False
  end.
Proof.
  intros f.
  assert (H : StronglySorted lt (map fst (rows f))) by (cbn; repeat constructor).
  pose proof (output_order cpython 0 f H) as X.
  split; [exact H|exact X].
Defined.

(** C5 (counterexample): with the same tier and total, a row whose amount
    cell is empty is placed after a row whose amount is 0, although both
    amounts coerce to 0 and the empty-amount row comes first in the input. *)
Lemma empty_amount_sorted_after_zero :
  let f := mkFrame ["Название"; "Сумма"]
             [(0, [("Название", PStr "сикг"); ("Сумма", PStr "")]);
              (1, [("Название", PStr "сикг"); ("Сумма", PInt 0)])] in
  match score_table cpython 0 f with
  | Some (out, d) =>
      match rows out with
      | [b; a] =>
          fst a = 0 /\ fst b = 1 /\
          tier (row_get (snd a) "Priority") = tier (row_get (snd b) "Priority") /\
          total_of (snd a) = total_of (snd b) /\
          (coerced_amount cpython (d_amount_col d) (snd a) ==
           coerced_amount cpython (d_amount_col d) (snd b))%Q
      | _ => False
      end
  | None => False
  end.
Proof. vm_compute. repeat split. Qed.

(** C1 (code bug): with [MIN_SUM] = 0 a relevant row (keyword score 1)
    whose amount is -5 fails the amount mask [amt_vals >= MIN_SUM] and is
    dropped from the output. *)
Lemma negative_amount_row_dropped :
  let f := mkFrame ["Название"; "Сумма"] [(0, [("Название", PStr "сикг"); ("Сумма", PInt (-5))])] in
  kw_of cpython f = [1%Z] /\ base_mask cpython f = [true] /\ sum_mask cpython 0 f = [false] /\
  match score_table cpython 0 f with Some (out, _) => rows out = [] | None => False end.
Proof. vm_compute. repeat split. Qed.

(** * Chat, file names and table replies: proofs *)

(* ------------------------------------------------------------------ *)

Lemma substring_full s : substring 0 (String.length s) s = s.
Proof. induction s; cbn; congruence. Qed.

Lemma contains_app_r k p t : contains k t = true -> contains k (p ++ t) = true.
Proof.
  induction p as [|c p IH]; cbn; auto.
  intros H. rewrite IH by exact H. apply orb_true_r.
Qed.

Lemma prefixb_app p t : prefixb p (p ++ t) = true.
Proof. induction p; cbn; auto. now rewrite Ascii.eqb_refl. Qed.

Lemma contains_sep_line r c : contains ": " (r ++ ": " ++ c) = true.
Proof.
  apply contains_app_r. destruct c; reflexivity.
Qed.

Lemma split_once_role r c :
  chat_role r -> split_once ": " (r ++ ": " ++ c) = Some (r, c).
Proof.
  intros [-> | [-> | ->]]; cbn; rewrite Nat.sub_0_r, substring_full; reflexivity.
Qed.

Lemma openai_messages_app l1 l2 :
  openai_messages (l1 ++ l2) = (openai_messages l1 ++ openai_messages l2)%list.
Proof. unfold openai_messages. apply flat_map_app. Qed.

Lemma openai_messages_line m :
  chat_role (fst m) -> openai_messages [history_line m] = [m].
Proof.
  destruct m as [r c]. intros Hr. cbn [fst] in Hr. unfold openai_messages, history_line. cbn [flat_map fst snd].
  rewrite contains_sep_line, (split_once_role r c Hr).
  destruct Hr as [-> | [-> | ->]]; reflexivity.
Qed.

Lemma history_lines_decode msgs :
  Forall (fun m => chat_role (fst m)) msgs ->
  openai_messages (map history_line msgs) = msgs.
Proof.
  induction 1 as [|m msgs Hm _ IH]; [reflexivity|].
  change (map history_line (m :: msgs)) with ([history_line m] ++ map history_line msgs)%list.
  rewrite openai_messages_app, openai_messages_line by exact Hm. cbn. now rewrite IH.
Qed.

Lemma threads_set_same t uid h : threads_set t uid h uid = Some h.
Proof. unfold threads_set. now rewrite Z.eqb_refl. Qed.

Lemma threads_set_other t uid h u : u <> uid -> threads_set t uid h u = t u.
Proof. intros H. unfold threads_set. destruct (Z.eqb_spec u uid); [contradiction|reflexivity]. Qed.

Lemma threads_set_twice t uid h1 h2 : threads_set (threads_set t uid h1) uid h2 = threads_set t uid h2.
Proof.
  apply functional_extensionality. intros u. unfold threads_set. destruct (Z.eqb u uid); reflexivity.
Qed.

Lemma conv_roles conv :
  Forall turn_role conv -> Forall (fun m => chat_role (fst m)) (system_msg :: conv).
Proof.
  intros H. constructor; [left; reflexivity|].
  eapply Forall_impl; [|exact H]. intros m [E|E]; unfold chat_role; auto.
Qed.


Lemma call_openai_post rt post post' msgs :
  Forall (fun m => chat_role (fst m)) msgs -> post' msgs = post msgs ->
  call_openai rt post' (map history_line msgs) = call_openai rt post (map history_line msgs).
Proof.
  intros Hr Hp. unfold call_openai. rewrite history_lines_decode by exact Hr. now rewrite Hp.
Qed.

(** One turn of [on_text] on a history made of the system line and the
    lines of [conv]. *)
Lemma on_text_eq rt post t uid chat s conv :
  s <> "" ->
  t uid = Some (map history_line (system_msg :: conv)) \/ (conv = [] /\ t uid = None) ->
  let sent := (system_msg :: conv ++ [("user", py_strip rt s)])%list in
  on_text rt post t (Some s) uid chat =
  match call_openai rt post (map history_line sent) with
  | inl e => (inl e, threads_set t uid (map history_line sent), [SendChatAction chat "typing"])
  | inr reply =>
      (inr tt, threads_set t uid (map history_line (sent ++ [("assistant", reply)])),
       [SendChatAction chat "typing"; ReplyText reply])
  end.
Proof.
  intros Hs Ht sent. unfold on_text.
  destruct (String.eqb_spec s "") as [E|_]; [contradiction|].
  unfold get_history.
  assert (Eh : (match match t uid with Some h => h | None => [] end with
                | [] => ["system: " ++ SYSTEM_PROMPT] | _ :: _ => match t uid with Some h => h | None => [] end
                end) = map history_line (system_msg :: conv)).
  { destruct Ht as [-> | [-> ->]]; reflexivity. }
  cbv zeta. rewrite Eh, threads_set_twice.
  assert (Es : (map history_line (system_msg :: conv) ++ [("user: " ++ py_strip rt s)%string])%list
               = map history_line sent).
  { unfold sent. rewrite app_comm_cons, map_app. reflexivity. }
  rewrite Es. destruct (call_openai rt post (map history_line sent)) as [e|reply]; [reflexivity|].
  rewrite threads_set_twice, map_app. reflexivity.
Qed.


Lemma history_ok_empty : history_ok empty_threads.
Proof. intros u h H. discriminate. Qed.

Lemma history_ok_set t uid conv :
  history_ok t -> Forall turn_role conv ->
  history_ok (threads_set t uid (map history_line (system_msg :: conv))).
Proof.
  intros Ht Hc u h. destruct (Z.eqb_spec u uid) as [->|Hne].
  - rewrite threads_set_same. intros E. injection E as <-. eauto.
  - rewrite threads_set_other by exact Hne. apply Ht.
Qed.

Lemma history_ok_dispatch rt t u : history_ok t -> history_ok (dispatch rt t u).
Proof.
  intros Ht. destruct u as [uid chat [s|] post|uid]; cbn [dispatch].
  - destruct (String.eqb_spec s "") as [->|Hs]; [exact Ht|].
    assert (H : exists conv, Forall turn_role conv /\
                (t uid = Some (map history_line (system_msg :: conv)) \/ (conv = [] /\ t uid = None))).
    { destruct (t uid) as [h|] eqn:E.
      - destruct (Ht uid h E) as (conv & Hc & ->). exists conv. auto.
      - exists []. auto. }
    destruct H as (conv & Hc & Hu).
    rewrite (on_text_eq rt post t uid chat s conv Hs Hu).
    assert (Hc' : Forall turn_role (conv ++ [("user", py_strip rt s)])%list).
    { apply Forall_app. split; [exact Hc|]. repeat constructor. }
    destruct (call_openai _ _ _) as [e|reply]; cbn [fst snd].
    + rewrite app_comm_cons. apply history_ok_set; assumption.
    + rewrite <- app_comm_cons, <- app_assoc.
      apply history_ok_set; [exact Ht|].
      rewrite app_assoc. apply Forall_app. split; [exact Hc'|]. constructor; [right; reflexivity|constructor].
  - exact Ht.
  - intros u h. cbn. unfold threads_pop. destruct (Z.eqb u uid); [discriminate|]. apply Ht.
Qed.

Lemma history_ok_run rt us t : history_ok t -> history_ok (run_updates rt t us).
Proof.
  unfold run_updates. revert t. induction us as [|u us IH]; cbn; auto.
  intros t Ht. apply IH, history_ok_dispatch, Ht.
Qed.

(** X3: starting from no histories, after any sequence of text messages and
    [/reset] commands, every stored history is the system line followed by
    user and assistant lines, and decodes to exactly those messages. *)
Theorem run_updates_history rt us uid h :
  run_updates rt empty_threads us uid = Some h ->
  exists conv, Forall turn_role conv /\
    h = map history_line (system_msg :: conv) /\
    openai_messages h = system_msg :: conv.
Proof.
  intros E. destruct (history_ok_run rt us _ history_ok_empty uid h E) as (conv & Hc & ->).
  exists conv. split; [exact Hc|]. split; [reflexivity|].
  apply history_lines_decode, conv_roles, Hc.
Qed.

(** X4: [/reset] drops the history of its user only, and the next message of
    that user is answered from the system prompt and that message alone. *)
Theorem reset_cmd_fresh rt post t uid chat s :
  s <> "" ->
  let t' := fst (reset_cmd t uid) in
  (forall u, u <> uid -> t' u = t u) /\ t' uid = None /\
  let sent := [system_msg; ("user", py_strip rt s)] in
  forall post', post' sent = post sent ->
  on_text rt post' t' (Some s) uid chat = on_text rt post t' (Some s) uid chat.
Proof.
  intros Hs t'.
  assert (Hu : t' uid = None) by (cbn; unfold threads_pop; now rewrite Z.eqb_refl).
  split; [|split; [exact Hu|]].
  - intros u Hne. cbn. unfold threads_pop. destruct (Z.eqb_spec u uid); [contradiction|reflexivity].
  - intros sent post' Hp.
    assert (Ht : t' uid = Some (map history_line (system_msg :: [])) \/ ([] = @nil (string * string) /\ t' uid = None))
      by (right; auto).
    rewrite !(on_text_eq _ _ _ _ _ _ [] Hs Ht). cbn [app].
    assert (Hr : Forall (fun m => chat_role (fst m)) sent).
    { constructor; [cbn; unfold chat_role; auto|]. constructor; [cbn; unfold chat_role; auto|constructor]. }
    change [system_msg; ("user", py_strip rt s)] with sent.
    now rewrite (call_openai_post rt post post' sent Hr Hp).
Qed.


Lemma run_updates_history_witness :
  let us := [TextUpdate 1%Z 2%Z (Some " hi ") (fun _ => PostResponse 200 "OK"
               (inr (JObj [("choices", JArr [JObj [("message", JObj [("content", JStr " hello ")])]])])));
             ResetUpdate 3%Z] in
  let h := map history_line [system_msg; ("user", "hi"); ("assistant", "hello")] in
  run_updates cpython empty_threads us 1%Z = Some h /\
  exists conv, Forall turn_role conv /\
    h = map history_line (system_msg :: conv) /\ openai_messages h = system_msg :: conv.
Proof.
  intros us h.
  assert (E : run_updates cpython empty_threads us 1%Z = Some h) by (vm_compute; reflexivity).
  split; [exact E|]. exact (run_updates_history cpython us 1%Z h E).
Defined.

Lemma reset_cmd_fresh_witness :
  "hi" <> "" /\
  let t' := fst (reset_cmd empty_threads 1%Z) in
  (forall u, u <> 1%Z -> t' u = empty_threads u) /\ t' 1%Z = None /\
  let sent := [system_msg; ("user", py_strip cpython "hi")] in
  forall post', post' sent = (fun _ => PostRaised (BaseExc "boom")) sent ->
  on_text cpython post' t' (Some "hi") 1%Z 2%Z =
  on_text cpython (fun _ => PostRaised (BaseExc "boom")) t' (Some "hi") 1%Z 2%Z.
Proof.
  assert (H1 : "hi" <> "") by discriminate.
  split; [exact H1|].
  exact (reset_cmd_fresh cpython (fun _ => PostRaised (BaseExc "boom")) empty_threads 1%Z 2%Z "hi" H1).
Defined.

(** X1: decoding the history lines the bot writes (role, [": "], content) with
    the message parser of [call_openai] gives back the messages, whenever
    every role is system, user or assistant, whatever the contents hold. *)
Theorem openai_messages_history msgs :
  Forall (fun m => chat_role (fst m)) msgs ->
  openai_messages (map history_line msgs) = msgs.
Proof. apply history_lines_decode. Qed.

Lemma openai_messages_history_witness :
  Forall (fun m => chat_role (fst m)) [system_msg; ("user", "a: b")] /\
  openai_messages (map history_line [system_msg; ("user", "a: b")]) = [system_msg; ("user", "a: b")].
Proof.
  assert (H : Forall (fun m => chat_role (fst m)) [system_msg; ("user", "a: b")]).
  { constructor; [cbn; unfold chat_role; auto|]. constructor; [cbn; unfold chat_role; auto|constructor]. }
  split; [exact H|]. exact (openai_messages_history _ H).
Defined.


Lemma sub_unsafe_safe b s : forall a, In a (list_ascii_of_string (sub_unsafe b s)) -> safe_char a = true.
Proof.
  revert b. induction s as [|c s IH]; intros b a H; cbn in H; [contradiction|].
  destruct (safe_char c) eqn:E.
  - destruct H as [<-|H]; [exact E|exact (IH _ _ H)].
  - destruct b.
    + exact (IH _ _ H).
    + destruct H as [<-|H]; [reflexivity|exact (IH _ _ H)].
Qed.

Lemma sub_unsafe_false_empty s : sub_unsafe false s = "" -> s = "".
Proof.
  destruct s as [|c s]; cbn; [reflexivity|].
  destruct (safe_char c); discriminate.
Qed.

Lemma sub_unsafe_dot s : sub_unsafe false s = "." -> s = ".".
Proof.
  destruct s as [|c s]; cbn; [discriminate|].
  destruct (safe_char c) eqn:E; [|discriminate].
  intros H. injection H as -> H. apply sub_unsafe_false_empty in H. subst. reflexivity.
Qed.

Lemma sub_unsafe_id s :
  (forall a, In a (list_ascii_of_string s) -> safe_char a = true) -> forall b, sub_unsafe b s = s.
Proof.
  induction s as [|c s IH]; intros H b; cbn; [reflexivity|].
  rewrite (H c (or_introl eq_refl)). f_equal. apply IH. intros a Ha. apply H. right. exact Ha.
Qed.

Lemma path_name_cases p : path_name p = "" \/ (path_name p <> "" /\ path_name p <> ".").
Proof.
  unfold path_name.
  remember (filter _ _) as l eqn:El.
  assert (Hl : forall x, In x l -> x <> "" /\ x <> ".").
  { intros x Hx. subst l. apply filter_In in Hx as [_ Hx].
    apply andb_prop in Hx as [H1 H2]. apply negb_true_iff in H1, H2.
    apply String.eqb_neq in H1, H2. auto. }
  clear El. induction l as [|x l IH]; [left; reflexivity|].
  destruct l as [|y l].
  - right. apply Hl. left. reflexivity.
  - apply IH. intros z Hz. apply Hl. right. exact Hz.
Qed.

Lemma split_char_no c s : (forall a, In a (list_ascii_of_string s) -> a <> c) -> split_char c s = [s].
Proof.
  induction s as [|a s IH]; intros H; cbn; [reflexivity|].
  rewrite IH by (intros b Hb; apply H; right; exact Hb).
  destruct (Ascii.eqb_spec a c) as [E|_]; [|reflexivity].
  exfalso. exact (H a (or_introl eq_refl) E).
Qed.

Lemma safe_not_slash a : safe_char a = true -> a <> "/"%char.
Proof. intros H ->. discriminate H. Qed.

Lemma path_name_safe s :
  s <> "" -> s <> "." -> (forall a, In a (list_ascii_of_string s) -> safe_char a = true) ->
  path_name s = s.
Proof.
  intros H1 H2 H. unfold path_name.
  rewrite split_char_no by (intros a Ha; apply safe_not_slash, H, Ha).
  cbn. apply String.eqb_neq in H1, H2. rewrite H1, H2. reflexivity.
Qed.

Lemma safe_name_props name fallback :
  let r := _safe_name name fallback in
  (forall a, In a (list_ascii_of_string r) -> safe_char a = true) /\
  r <> "." /\
  (r = "" <-> path_name (if String.eqb name "" then fallback else name) = "").
Proof.
  intros r. unfold r, _safe_name.
  set (p := path_name _).
  split; [apply sub_unsafe_safe|]. split.
  - intros H. apply sub_unsafe_dot in H.
    destruct (path_name_cases (if String.eqb name "" then fallback else name)) as [H'|[_ H']];
      fold p in H'; congruence.
  - split; [apply sub_unsafe_false_empty|]. intros ->. reflexivity.
Qed.

(** X7: [_safe_name] leaves the names it makes unchanged, unless it made the
    empty name. *)
Theorem safe_name_idempotent name fallback fallback' :
  _safe_name name fallback <> "" ->
  _safe_name (_safe_name name fallback) fallback' = _safe_name name fallback.
Proof.
  intros Hne. destruct (safe_name_props name fallback) as (Hs & Hd & _).
  set (r := _safe_name name fallback) in *.
  unfold _safe_name at 1.
  apply String.eqb_neq in Hne as Hne'. rewrite Hne'.
  rewrite path_name_safe by assumption.
  apply sub_unsafe_id, Hs.
Qed.

Lemma list_ascii_app s t :
  list_ascii_of_string (s ++ t) = (list_ascii_of_string s ++ list_ascii_of_string t)%list.
Proof. induction s as [|a s IH]; cbn; [reflexivity|]. now rewrite IH. Qed.

Lemma rfind_char_none c s : ~ In c (list_ascii_of_string s) -> rfind_char c s = None.
Proof.
  induction s as [|a s IH]; intros H; cbn; [reflexivity|].
  rewrite IH by (intros Hc; apply H; right; exact Hc).
  destruct (Ascii.eqb_spec a c) as [->|_]; [|reflexivity].
  exfalso. apply H. left. reflexivity.
Qed.

Lemma rfind_char_app c s t i :
  rfind_char c t = Some i -> rfind_char c (s ++ t) = Some (String.length s + i).
Proof.
  intros H. induction s as [|a s IH]; cbn; [exact H|]. now rewrite IH.
Qed.

Lemma substring_app_r s t : substring (String.length s) (String.length t) (s ++ t) = t.
Proof.
  induction s as [|a s IH]; cbn.
  - induction t as [|b t IHt]; cbn; [reflexivity|]. now rewrite IHt.
  - exact IH.
Qed.

Lemma substring_app_l s t : substring 0 (String.length s) (s ++ t) = s.
Proof. induction s as [|a s IH]; cbn; [now destruct t|]. now rewrite IH. Qed.

Lemma length_app_str s t : String.length (s ++ t) = String.length s + String.length t.
Proof. induction s as [|a s IH]; cbn; [reflexivity|]. now rewrite IH. Qed.

(** X8: a document whose name is made of the characters [[A-Za-z0-9._-]] and
    ends in an extension [.e] ([e] nonempty, without a dot) after a nonempty
    stem keeps its name; it is read as a table exactly when the lower-cased
    extension is [.xlsx], [.xls] or [.csv], and the result file is then named
    after the stem. *)
Theorem route_document_safe rt stem e :
  stem <> "" -> e <> "" ->
  forallb safe_char (list_ascii_of_string stem) = true ->
  forallb safe_char (list_ascii_of_string e) = true ->
  existsb (Ascii.eqb ".") (list_ascii_of_string e) = false ->
  route_document rt (Some (stem ++ String "." e)) =
  if existsb (String.eqb (py_lower rt (String "." e))) [".xlsx"; ".xls"; ".csv"]
  then TableDoc (stem ++ String "." e) (py_lower rt (String "." e))
         ("MCE_filtered_scored_" ++ stem ++ ".xlsx")
  else EchoDoc (stem ++ String "." e).
Proof.
  intros Hst He Hs1 Hs2 Hdot.
  set (n := stem ++ String "." e).
  assert (Hsafe : forall a, In a (list_ascii_of_string n) -> safe_char a = true).
  { intros a Ha. unfold n in Ha. rewrite list_ascii_app in Ha. apply in_app_or in Ha as [Ha|[<-|Ha]].
    - exact (proj1 (forallb_forall _ _) Hs1 a Ha).
    - reflexivity.
    - exact (proj1 (forallb_forall _ _) Hs2 a Ha). }
  assert (Hne : n <> "") by (unfold n; destruct stem; [contradiction|discriminate]).
  assert (Hnd : n <> ".").
  { unfold n. destruct stem as [|a [|b s]]; [contradiction| |discriminate].
    cbn. destruct e; [contradiction|discriminate]. }
  assert (Hname : path_name n = n) by (apply path_name_safe; assumption).
  assert (Hsn : _safe_name (py_or (Some n) "file.bin") "file.bin" = n).
  { cbn [py_or]. apply String.eqb_neq in Hne as Hne'. rewrite Hne'.
    unfold _safe_name. rewrite Hne', Hname. apply sub_unsafe_id, Hsafe. }
  assert (Hrf : rfind_char "." n = Some (String.length stem)).
  { unfold n. rewrite <- (Nat.add_0_r (String.length stem)). apply rfind_char_app.
    cbn. rewrite rfind_char_none; [reflexivity|].
    intros Hin. apply Bool.not_true_iff_false in Hdot. apply Hdot.
    apply existsb_exists. exists "."%char. split; [exact Hin|reflexivity]. }
  assert (Hlen : String.length n = String.length stem + S (String.length e))
    by (unfold n; rewrite length_app_str; reflexivity).
  assert (Hcond : (Nat.ltb 0 (String.length stem) && Nat.ltb (String.length stem) (String.length n - 1)) = true).
  { rewrite Hlen. destruct stem; [contradiction|]. destruct e; [contradiction|].
    cbn [String.length]. apply andb_true_intro. split; apply Nat.ltb_lt; lia. }
  assert (Hsuf : path_suffix n = String "." e).
  { unfold path_suffix. rewrite Hname, Hrf, Hcond.
    replace (String.length n - String.length stem) with (String.length (String "." e)) by (rewrite Hlen; cbn; lia).
    apply substring_app_r. }
  assert (Hstem : path_stem n = stem).
  { unfold path_stem. rewrite Hname, Hrf, Hcond. apply substring_app_l. }
  unfold route_document. fold n. rewrite Hsn, Hsuf, Hstem. reflexivity.
Qed.

Lemma route_document_safe_witness :
  ("report_2024" <> "" /\ "XLSX" <> "" /\
   forallb safe_char (list_ascii_of_string "report_2024") = true /\
   forallb safe_char (list_ascii_of_string "XLSX") = true /\
   existsb (Ascii.eqb ".") (list_ascii_of_string "XLSX") = false) /\
  route_document cpython (Some ("report_2024" ++ String "." "XLSX")) =
  if existsb (String.eqb (py_lower cpython (String "." "XLSX"))) [".xlsx"; ".xls"; ".csv"]
  then TableDoc ("report_2024" ++ String "." "XLSX") (py_lower cpython (String "." "XLSX"))
         ("MCE_filtered_scored_" ++ "report_2024" ++ ".xlsx")
  else EchoDoc ("report_2024" ++ String "." "XLSX").
Proof.
  assert (H1 : "report_2024" <> "") by discriminate.
  assert (H2 : "XLSX" <> "") by discriminate.
  assert (H3 : forallb safe_char (list_ascii_of_string "report_2024") = true) by reflexivity.
  assert (H4 : forallb safe_char (list_ascii_of_string "XLSX") = true) by reflexivity.
  assert (H5 : existsb (Ascii.eqb ".") (list_ascii_of_string "XLSX") = false) by reflexivity.
  split; [repeat split; assumption|].
  exact (route_document_safe cpython "report_2024" "XLSX" H1 H2 H3 H4 H5).
Defined.

(** X6: the file name [_safe_name] makes has only characters of
    [[A-Za-z0-9._-]] (so no ["/"]), is never ["."], and is empty exactly when
    the name, or the fallback for an empty name, has no path component besides
    ["."]. *)
Theorem safe_name_chars name fallback :
  let r := _safe_name name fallback in
  (forall a, In a (list_ascii_of_string r) -> safe_char a = true) /\
  r <> "." /\
  (r = "" <-> path_name (if String.eqb name "" then fallback else name) = "").
Proof. apply safe_name_props. Qed.

Lemma safe_name_idempotent_witness :
  _safe_name "docs/Отчёт 2024.xlsx" "file.bin" <> "" /\
  _safe_name (_safe_name "docs/Отчёт 2024.xlsx" "file.bin") "x" = _safe_name "docs/Отчёт 2024.xlsx" "file.bin".
Proof.
  assert (H : _safe_name "docs/Отчёт 2024.xlsx" "file.bin" <> "") by (vm_compute; discriminate).
  split; [exact H|]. exact (safe_name_idempotent _ _ "x" H).
Defined.

Lemma nrows_def g : nrows g = length (rows g).
Proof. reflexivity. Qed.

Lemma map4_at {A B C D E} (h : A -> B -> C -> D -> E) l1 l2 l3 l4 i e :
  nth_error (map4 h l1 l2 l3 l4) i = Some e ->
  exists a b c d, nth_error l1 i = Some a /\ nth_error l2 i = Some b /\ nth_error l3 i = Some c /\
    nth_error l4 i = Some d /\ h a b c d = e.
Proof.
  unfold map4. rewrite nth_error_map, !nth_error_combine.
  destruct (nth_error l1 i) as [a|]; [|discriminate].
  destruct (nth_error l2 i) as [b|]; [|discriminate].
  destruct (nth_error l3 i) as [c|]; [|discriminate].
  destruct (nth_error l4 i) as [d|]; [|discriminate].
  intros Heq. injection Heq as Heq. now exists a, b, c, d.
Qed.

Lemma scored_cols rt f :
  col (scored rt f) "Score_keywords(0-4)" = map PInt (kw_of rt f) /\
  col (scored rt f) "Score_client(0-3)" = map PInt (cl_of rt f) /\
  col (scored rt f) "Score_amount(0-2)" = map PInt (amt_of rt f) /\
  col (scored rt f) "Score_pattern(0-1)" = map PInt (pat_of rt f) /\
  col (scored rt f) "Score_total(0-10)" =
    map4 (fun a b c d => PInt (cell_int a + cell_int b + cell_int c + cell_int d))
      (map PInt (kw_of rt f)) (map PInt (cl_of rt f)) (map PInt (amt_of rt f)) (map PInt (pat_of rt f)).
Proof.
  unfold scored.
  set (f9 := set_col (set_col (set_col (set_col (prepared rt f) _ _) _ _) _ _) _ _).
  assert (Hk : col f9 "Score_keywords(0-4)" = map PInt (kw_of rt f)).
  { unfold f9. rewrite !col_set_col_other by (discriminate || len_tac). apply col_set_col_same. len_tac. }
  assert (Hc : col f9 "Score_client(0-3)" = map PInt (cl_of rt f)).
  { unfold f9. rewrite !col_set_col_other by (discriminate || len_tac). apply col_set_col_same. len_tac. }
  assert (Ha : col f9 "Score_amount(0-2)" = map PInt (amt_of rt f)).
  { unfold f9. rewrite !col_set_col_other by (discriminate || len_tac). apply col_set_col_same. len_tac. }
  assert (Hp : col f9 "Score_pattern(0-1)" = map PInt (pat_of rt f)).
  { unfold f9. apply col_set_col_same. len_tac. }
  assert (Hn : nrows f9 = nrows f) by (unfold f9; len_tac).
  assert (Hl : length (map4 (fun a b c d => PInt (cell_int a + cell_int b + cell_int c + cell_int d))
     (col f9 "Score_keywords(0-4)") (col f9 "Score_client(0-3)")
     (col f9 "Score_amount(0-2)") (col f9 "Score_pattern(0-1)")) = nrows f9)
    by (apply length_map4; apply length_col).
  rewrite col_set_col_same by exact Hl.
  rewrite !col_set_col_other by (discriminate || exact Hl).
  rewrite Hk, Hc, Ha, Hp. repeat split.
Qed.

Lemma nth_col_row g c ks i x :
  col g c = map PInt ks -> nth_error (rows g) i = Some x ->
  exists k, nth_error ks i = Some k /\ row_get (snd x) c = PInt k.
Proof.
  intros Hc Hx.
  pose proof (nth_error_col g c i) as E.
  rewrite Hc, nth_error_map, Hx in E. destruct x as [l r]. cbn in E |- *.
  destruct (nth_error ks i) as [k|]; [|discriminate]. injection E as E. now exists k.
Qed.

Lemma scored_row_at rt f i x :
  nth_error (rows (scored rt f)) i = Some x ->
  exists k c a p,
    nth_error (kw_of rt f) i = Some k /\ nth_error (cl_of rt f) i = Some c /\
    nth_error (amt_of rt f) i = Some a /\ nth_error (pat_of rt f) i = Some p /\
    row_get (snd x) "Score_keywords(0-4)" = PInt k /\ row_get (snd x) "Score_client(0-3)" = PInt c /\
    row_get (snd x) "Score_amount(0-2)" = PInt a /\ row_get (snd x) "Score_pattern(0-1)" = PInt p /\
    row_get (snd x) "Score_total(0-10)" = PInt (k + c + a + p).
Proof.
  intros Hx. destruct (scored_cols rt f) as (Hk & Hc & Ha & Hp & Ht).
  destruct (nth_col_row _ _ _ _ _ Hk Hx) as (k & Ek & Rk).
  destruct (nth_col_row _ _ _ _ _ Hc Hx) as (c & Ec & Rc).
  destruct (nth_col_row _ _ _ _ _ Ha Hx) as (a & Ea & Ra).
  destruct (nth_col_row _ _ _ _ _ Hp Hx) as (p & Ep & Rp).
  exists k, c, a, p. repeat split; try assumption.
  pose proof (nth_error_col (scored rt f) "Score_total(0-10)" i) as E.
  rewrite Ht, Hx in E. unfold map4 in E. rewrite nth_error_map, !nth_error_combine, !nth_error_map in E.
  rewrite Ek, Ec, Ea, Ep in E. destruct x as [l r]. cbn in E |- *. congruence.
Qed.

Lemma score_keywords_range rt s : (0 <= _score_keywords rt s <= 4)%Z.
Proof.
  unfold _score_keywords.
  destruct (Nat.leb 4 _); [lia|]. destruct (Nat.eqb _ 3); [lia|].
  destruct (Nat.eqb _ 2); [lia|]. destruct (Nat.eqb _ 1); lia.
Qed.

Lemma score_client_vals rt s : _score_client rt s = 0%Z \/ _score_client rt s = 3%Z.
Proof. unfold _score_client. destruct (_any_in _ _ _); auto. Qed.

Lemma score_amount_range rt a : (0 <= _score_amount rt a <= 2)%Z.
Proof.
  unfold _score_amount. destruct (Qle_bool 300000000 _); [lia|]. destruct (Qle_bool 50000000 _); lia.
Qed.

Lemma score_pattern_range rt s : (0 <= _score_pattern rt s <= 1)%Z.
Proof. unfold _score_pattern. destruct (_any_re _ _ _); lia. Qed.

Lemma kw_of_range rt f k : In k (kw_of rt f) -> (0 <= k <= 4)%Z.
Proof.
  unfold kw_of. destruct (detect rt (fillna_str f)) as [[n c] a].
  intros H. apply in_map_iff in H as (x & <- & _). apply score_keywords_range.
Qed.

Lemma cl_of_vals rt f c : In c (cl_of rt f) -> c = 0%Z \/ c = 3%Z.
Proof.
  unfold cl_of. destruct (detect rt (fillna_str f)) as [[n c'] a].
  intros H. apply in_map_iff in H as (x & <- & _). apply score_client_vals.
Qed.

Lemma amt_of_range rt f a : In a (amt_of rt f) -> (0 <= a <= 2)%Z.
Proof.
  unfold amt_of. intros H. apply in_map_iff in H as (x & <- & _). apply score_amount_range.
Qed.

Lemma pat_of_range rt f p : In p (pat_of rt f) -> (0 <= p <= 1)%Z.
Proof.
  unfold pat_of. destruct (detect rt (fillna_str f)) as [[n c] a].
  intros H. apply in_map_iff in H as (x & <- & _). apply score_pattern_range.
Qed.

(** X9: every row of the scored output has integer sub-scores in their ranges
    (keywords 0..4, client 0 or 3, amount 0..2, pattern 0..1), a total equal
    to their sum and between 1 and 10, and the priority of that total. *)
Theorem output_row_scores rt MIN_SUM f :
  match score_table rt MIN_SUM f with
  | Some (out, _) =>
      Forall (fun '(_, r) => exists k c a p,
        row_get r "Score_keywords(0-4)" = PInt k /\ row_get r "Score_client(0-3)" = PInt c /\
        row_get r "Score_amount(0-2)" = PInt a /\ row_get r "Score_pattern(0-1)" = PInt p /\
        (0 <= k <= 4)%Z /\ (c = 0 \/ c = 3)%Z /\ (0 <= a <= 2)%Z /\ (0 <= p <= 1)%Z /\
        row_get r "Score_total(0-10)" = PInt (k + c + a + p) /\ (1 <= k + c + a + p <= 10)%Z /\
        row_get r "Priority" = PStr (_priority (k + c + a + p))) (rows out)
  | None => False
  end.
Proof.
  rewrite score_table_output. apply Forall_forall. intros x Hx.
  apply in_output_presorted in Hx.
  destruct (presorted_row_keys _ _ _ _ Hx) as (z & Hz & Hpz).
  unfold presorted in Hx. apply in_set_col in Hx as (y & u & Hy & Ex). apply in_combine_l in Hy.
  apply in_set_col in Hy as (w & v & Hw & Ey). apply in_combine_l in Hw.
  pose proof (selected_row_pos _ _ _ _ Hw) as Hpos.
  apply in_filter_rows in Hw as (i & Hwi & _).
  destruct (scored_row_at _ _ _ _ Hwi) as (k & c & a & p & Ek & Ec & Ea & Ep & Rk & Rc & Ra & Rp & Rt).
  assert (Hget : forall L, L <> "Причина" -> L <> "Priority" -> row_get (snd x) L = row_get (snd w) L).
  { intros L H1 H2. subst x y. cbn [snd].
    rewrite row_get_dict_set_other by exact H1. apply row_get_dict_set_other, H2. }
  rewrite Rk, Rc, Rp, !cell_pos_int in Hpos.
  pose proof (kw_of_range _ _ _ (nth_error_In _ _ Ek)) as Bk.
  pose proof (cl_of_vals _ _ _ (nth_error_In _ _ Ec)) as Bc.
  pose proof (amt_of_range _ _ _ (nth_error_In _ _ Ea)) as Ba.
  pose proof (pat_of_range _ _ _ (nth_error_In _ _ Ep)) as Bp.
  rewrite Hget in Hz by discriminate. rewrite Rt in Hz. injection Hz as <-.
  destruct x as [lab r]. cbn [snd] in Hget, Hpz.
  exists k, c, a, p.
  rewrite !Hget by discriminate.
  repeat split; try assumption; try lia.
  all: apply orb_prop in Hpos as [Hpos|Hpos]; [apply orb_prop in Hpos as [Hpos|Hpos]|];
       apply Z.leb_le in Hpos; lia.
Qed.

Lemma in_labels_filter {A} (l : list (nat * A)) m lab :
  In lab (map fst (map fst (filter snd (combine l m)))) <->
  exists j y, nth_error l j = Some y /\ fst y = lab /\ nth_error m j = Some true.
Proof.
  rewrite map_map. split.
  - intros H. apply in_map_iff in H as ([y b] & <- & H). apply filter_In in H as [H Hb].
    cbn in Hb. subst b. apply In_nth_error in H as [j Hj].
    rewrite nth_error_combine in Hj.
    destruct (nth_error l j) as [y'|] eqn:E1; [|discriminate].
    destruct (nth_error m j) as [b'|] eqn:E2; [|discriminate].
    injection Hj as -> ->. exists j, y. auto.
  - intros (j & y & Hy & <- & Hm). apply in_map_iff. exists (y, true). split; [reflexivity|].
    apply filter_In. split; [|reflexivity].
    apply nth_error_In with j. rewrite nth_error_combine, Hy, Hm. reflexivity.
Qed.

Lemma map_fst_presorted rt MIN_SUM f :
  map fst (rows (presorted rt MIN_SUM f)) =
  map fst (rows (filter_rows (scored rt f) (map2 andb (base_mask rt f) (sum_mask rt MIN_SUM f)))).
Proof.
  unfold presorted.
  generalize (filter_rows (scored rt f) (map2 andb (base_mask rt f) (sum_mask rt MIN_SUM f))) as g.
  intros g. cbv zeta.
  rewrite map_fst_set_col by (rewrite length_map; reflexivity).
  apply map_fst_set_col. rewrite length_map, length_col. reflexivity.
Qed.

Lemma labels_output rt MIN_SUM f lab :
  In lab (map fst (rows (output rt MIN_SUM f))) <->
  exists j y, nth_error (rows (scored rt f)) j = Some y /\ fst y = lab /\
    nth_error (map2 andb (base_mask rt f) (sum_mask rt MIN_SUM f)) j = Some true.
Proof.
  destruct (output_amount rt MIN_SUM f) as (ac & -> & _). rewrite rows_sort_values.
  assert (Hp : Permutation (map fst (isort (fun a b => row_le rt ac (snd a) (snd b)) (rows (presorted rt MIN_SUM f))))
                           (map fst (rows (presorted rt MIN_SUM f))))
    by (apply Permutation_map, isort_perm).
  assert (Hl : map fst (rows (presorted rt MIN_SUM f)) =
               map fst (map fst (filter snd (combine (rows (scored rt f))
                 (map2 andb (base_mask rt f) (sum_mask rt MIN_SUM f)))))).
  { rewrite map_fst_presorted. reflexivity. }
  rewrite <- in_labels_filter, <- Hl. split; intros H.
  - exact (Permutation_in _ Hp H).
  - exact (Permutation_in _ (Permutation_sym Hp) H).
Qed.

Lemma nth_error_some_len {A} (l : list A) i n : length l = n -> i < n -> exists a, nth_error l i = Some a.
Proof.
  intros <- H. destruct (nth_error l i) as [a|] eqn:E; [eauto|].
  apply nth_error_None in E. lia.
Qed.

(** X10: an input row (in a table with distinct row labels) reaches the
    output exactly when its keyword, client or pattern score is positive and
    its amount passes the sum rule: not negative when [MIN_SUM <= 0];
    otherwise at least [MIN_SUM], or its keyword or pattern score positive. *)
Theorem output_selection rt MIN_SUM f i lab r :
  NoDup (map fst (rows f)) -> nth_error (rows f) i = Some (lab, r) ->
  match score_table rt MIN_SUM f with
  | Some (out, _) =>
      exists k c p q,
        nth_error (kw_of rt f) i = Some k /\ nth_error (cl_of rt f) i = Some c /\
        nth_error (pat_of rt f) i = Some p /\ nth_error (amt_vals_of rt f) i = Some q /\
        (In lab (map fst (rows out)) <->
         ((1 <= k)%Z \/ (1 <= c)%Z \/ (1 <= p)%Z) /\
         (if Qle_bool MIN_SUM 0 then (0 <= q)%Q
          else ((MIN_SUM <= q)%Q \/ (1 <= k)%Z \/ (1 <= p)%Z)))
  | None => False
  end.
Proof.
  intros Hnd Hi. rewrite score_table_output.
  assert (Hlt : i < nrows f) by (apply nth_error_Some; unfold nrows; congruence).
  destruct (nth_error_some_len (kw_of rt f) i _ (length_kw_of rt f) Hlt) as [k Ek].
  destruct (nth_error_some_len (cl_of rt f) i _ (length_cl_of rt f) Hlt) as [c Ec].
  destruct (nth_error_some_len (pat_of rt f) i _ (length_pat_of rt f) Hlt) as [p Ep].
  assert (Hlq : length (amt_vals_of rt f) = nrows f)
    by (rewrite <- (length_amt_of rt f); unfold amt_of; rewrite length_map; reflexivity).
  destruct (nth_error_some_len (amt_vals_of rt f) i _ Hlq Hlt) as [q Eq].
  exists k, c, p, q. split; [exact Ek|]. split; [exact Ec|]. split; [exact Ep|]. split; [exact Eq|].
  assert (Hb : nth_error (base_mask rt f) i = Some (Z.leb 1 k || Z.leb 1 c || Z.leb 1 p)).
  { unfold base_mask, map3. rewrite nth_error_map, !nth_error_combine, Ek, Ec, Ep. reflexivity. }
  assert (Hs : nth_error (sum_mask rt MIN_SUM f) i =
               Some (if Qle_bool MIN_SUM 0 then Qle_bool 0 q
                     else Qle_bool MIN_SUM q || Z.leb 1 k || Z.leb 1 p)).
  { unfold sum_mask. destruct (Qle_bool MIN_SUM 0).
    - rewrite nth_error_map, Eq. reflexivity.
    - unfold map3. rewrite nth_error_map, !nth_error_combine, Eq, Ek, Ep. reflexivity. }
  assert (Hm : nth_error (map2 andb (base_mask rt f) (sum_mask rt MIN_SUM f)) i =
               Some ((Z.leb 1 k || Z.leb 1 c || Z.leb 1 p) &&
                     (if Qle_bool MIN_SUM 0 then Qle_bool 0 q
                      else Qle_bool MIN_SUM q || Z.leb 1 k || Z.leb 1 p))).
  { unfold map2. rewrite nth_error_map, nth_error_combine, Hb, Hs. reflexivity. }
  assert (Hlab : forall j y, nth_error (rows (scored rt f)) j = Some y -> fst y = lab -> j = i).
  { intros j y Hy Hf.
    assert (E1 : nth_error (map fst (rows f)) j = Some lab).
    { rewrite <- (map_fst_scored rt f), nth_error_map, Hy. cbn. now rewrite Hf. }
    assert (E2 : nth_error (map fst (rows f)) i = Some lab) by (rewrite nth_error_map, Hi; reflexivity).
    apply (proj1 (NoDup_nth_error _) Hnd).
    - apply nth_error_Some. congruence.
    - congruence. }
  rewrite labels_output. split.
  - intros (j & y & Hy & Hf & Hmj). pose proof (Hlab j y Hy Hf) as ->.
    rewrite Hm in Hmj. injection Hmj as Hmj. apply andb_prop in Hmj as [H1 H2].
    split.
    + apply orb_prop in H1 as [H1|H1]; [apply orb_prop in H1 as [H1|H1]|];
        apply Z.leb_le in H1; auto.
    + destruct (Qle_bool MIN_SUM 0).
      * apply Qle_bool_iff, H2.
      * apply orb_prop in H2 as [H2|H2]; [apply orb_prop in H2 as [H2|H2]|].
        -- left. apply Qle_bool_iff, H2.
        -- right. left. apply Z.leb_le, H2.
        -- right. right. apply Z.leb_le, H2.
  - intros [H1 H2].
    assert (Hy : exists y, nth_error (rows (scored rt f)) i = Some y /\ fst y = lab).
    { assert (E : nth_error (map fst (rows (scored rt f))) i = Some lab)
        by (rewrite map_fst_scored, nth_error_map, Hi; reflexivity).
      rewrite nth_error_map in E. destruct (nth_error (rows (scored rt f)) i) as [y|]; [|discriminate].
      injection E as E. eauto. }
    destruct Hy as (y & Hy & Hf). exists i, y. split; [exact Hy|]. split; [exact Hf|].
    rewrite Hm. f_equal. apply andb_true_intro. split.
    + destruct H1 as [H1|[H1|H1]]; apply Z.leb_le in H1; rewrite H1; rewrite ?orb_true_r; reflexivity.
    + destruct (Qle_bool MIN_SUM 0).
      * apply Qle_bool_iff, H2.
      * destruct H2 as [H2|[H2|H2]].
        -- apply Qle_bool_iff in H2. rewrite H2. reflexivity.
        -- apply Z.leb_le in H2. rewrite H2, orb_true_r. reflexivity.
        -- apply Z.leb_le in H2. rewrite H2, orb_true_r. reflexivity.
Qed.

Lemma nrows_output rt MIN_SUM f :
  nrows (output rt MIN_SUM f) =
  length (filter snd (combine (rows (scored rt f)) (map2 andb (base_mask rt f) (sum_mask rt MIN_SUM f)))).
Proof.
  destruct (output_amount rt MIN_SUM f) as (ac & -> & _). rewrite nrows_def, rows_sort_values.
  rewrite (Permutation_length (isort_perm _ _)).
  rewrite <- (length_map fst (rows (presorted rt MIN_SUM f))), map_fst_presorted.
  cbn [rows filter_rows]. rewrite !length_map. reflexivity.
Qed.

Lemma filter_combine_le {A} (l : list A) m : length (filter snd (combine l m)) <= count_true (fun b => b) m.
Proof.
  unfold count_true. revert m. induction l as [|a l IH]; intros [|b m]; cbn; try lia.
  destruct b; cbn; specialize (IH m); lia.
Qed.

Lemma filter_combine_le_l {A} (l : list A) m : length (filter snd (combine l m)) <= length l.
Proof.
  revert m. induction l as [|a l IH]; intros [|b m]; cbn; try lia.
  destruct b; cbn; specialize (IH m); lia.
Qed.

Lemma filter_combine_le_nrows g m : length (filter snd (combine (rows g) m)) <= nrows g.
Proof. rewrite nrows_def. apply filter_combine_le_l. Qed.

Lemma count_map2_andb bm (sm : list bool) :
  count_true (fun b => b) (map2 andb bm sm) <= count_true (fun b => b) bm.
Proof.
  unfold count_true, map2. revert sm. induction bm as [|b bm IH]; intros [|s sm]; cbn; try lia.
  destruct b, s; cbn; specialize (IH sm); lia.
Qed.

Lemma count_base_le (kw cl pat : list Z) :
  count_true (fun b => b) (map3 (fun k c p => Z.leb 1 k || Z.leb 1 c || Z.leb 1 p) kw cl pat)
  <= hits kw + hits cl + hits pat.
Proof.
  unfold hits, count_true, map3. revert cl pat.
  induction kw as [|k kw IH]; intros [|c cl] [|p pat]; cbn; try lia.
  specialize (IH cl pat).
  destruct (Z.leb 1 k), (Z.leb 1 c), (Z.leb 1 p); cbn; lia.
Qed.

Lemma count_true_le_length {A} (g : A -> bool) l : count_true g l <= length l.
Proof. unfold count_true. apply filter_length_le. Qed.

Lemma diagnostics_fields rt MIN_SUM f :
  exists n c a, diagnostics rt MIN_SUM f =
     {| d_name_col := n; d_company_col := c; d_amount_col := a;
        d_kw_hits := hits (kw_of rt f); d_client_hits := hits (cl_of rt f);
        d_pattern_hits := hits (pat_of rt f);
        d_sum_ge_min := if negb (Qle_bool MIN_SUM 0)
                        then count_true (fun a => Qle_bool MIN_SUM a) (amt_vals_of rt f)
                        else nrows (scored rt f);
        d_total_in := nrows (scored rt f);
        d_total_out := nrows (output rt MIN_SUM f) |}.
Proof. unfold diagnostics. destruct (detect rt (fillna_str f)) as [[n c] a]. now exists n, c, a. Qed.

(** X11: the diagnostics count the input and output rows; no count exceeds the
    input rows, all amounts count as reaching a nonpositive [MIN_SUM], and the
    output rows are at most the keyword, client and pattern hits together. *)
Theorem diagnostics_counts rt MIN_SUM f :
  match score_table rt MIN_SUM f with
  | Some (out, d) =>
      d_total_in d = nrows f /\ d_total_out d = nrows out /\
      d_total_out d <= d_total_in d /\
      d_kw_hits d <= d_total_in d /\ d_client_hits d <= d_total_in d /\
      d_pattern_hits d <= d_total_in d /\ d_sum_ge_min d <= d_total_in d /\
      (Qle_bool MIN_SUM 0 = true -> d_sum_ge_min d = d_total_in d) /\
      d_total_out d <= d_kw_hits d + d_client_hits d + d_pattern_hits d
  | None => False
  end.
Proof.
  rewrite score_table_output.
  destruct (diagnostics_fields rt MIN_SUM f) as (n & c & a & ->).
  cbn [d_total_in d_total_out d_kw_hits d_client_hits d_pattern_hits d_sum_ge_min].
  rewrite nrows_scored.
  assert (Hlq : length (amt_vals_of rt f) = nrows f)
    by (rewrite <- (length_amt_of rt f); unfold amt_of; rewrite length_map; reflexivity).
  pose proof (nrows_output rt MIN_SUM f) as Ho.
  pose proof (filter_combine_le_nrows (scored rt f) (map2 andb (base_mask rt f) (sum_mask rt MIN_SUM f))) as Hl.
  rewrite nrows_scored in Hl.
  pose proof (filter_combine_le (rows (scored rt f)) (map2 andb (base_mask rt f) (sum_mask rt MIN_SUM f))) as Hc.
  pose proof (count_map2_andb (base_mask rt f) (sum_mask rt MIN_SUM f)) as Hc2.
  pose proof (count_base_le (kw_of rt f) (cl_of rt f) (pat_of rt f)) as Hc3.
  pose proof (count_true_le_length (fun z => Z.leb 1 z) (kw_of rt f)) as Hk.
  pose proof (count_true_le_length (fun z => Z.leb 1 z) (cl_of rt f)) as Hcl.
  pose proof (count_true_le_length (fun z => Z.leb 1 z) (pat_of rt f)) as Hp.
  pose proof (count_true_le_length (fun a => Qle_bool MIN_SUM a) (amt_vals_of rt f)) as Hq.
  rewrite length_kw_of in Hk. rewrite length_cl_of in Hcl. rewrite length_pat_of in Hp. rewrite Hlq in Hq.
  split; [reflexivity|]. split; [reflexivity|].
  split; [rewrite Ho; exact Hl|]. split; [exact Hk|]. split; [exact Hcl|]. split; [exact Hp|].
  split; [destruct (Qle_bool MIN_SUM 0); [apply le_n|exact Hq]|].
  split; [intros ->; reflexivity|].
  rewrite Ho. eapply Nat.le_trans; [exact Hc|]. eapply Nat.le_trans; [exact Hc2|]. exact Hc3.
Qed.

Lemma total_out_nrows rt MIN_SUM f :
  d_total_out (diagnostics rt MIN_SUM f) = nrows (output rt MIN_SUM f).
Proof. unfold diagnostics. destruct (detect rt (fillna_str f)) as [[n c] a]. reflexivity. Qed.

Lemma priority_cases z : _priority z = "High" \/ _priority z = "Medium" \/ _priority z = "Low".
Proof. unfold _priority. destruct (Z.leb 7 z); [auto|]. destruct (Z.leb 4 z); auto. Qed.

Lemma count_three (l : list (nat * row)) :
  (forall x, In x l -> exists z, row_get (snd x) "Priority" = PStr (_priority z)) ->
  count_true (fun '(_, r) => match row_get r "Priority" with PStr s => String.eqb s "High" | _ => false end) l +
  count_true (fun '(_, r) => match row_get r "Priority" with PStr s => String.eqb s "Medium" | _ => false end) l +
  count_true (fun '(_, r) => match row_get r "Priority" with PStr s => String.eqb s "Low" | _ => false end) l =
  length l.
Proof.
  unfold count_true. induction l as [|[i r] l IH]; intros H; cbn; [reflexivity|].
  destruct (H (i, r) (or_introl eq_refl)) as [z Hz]. cbn [snd] in Hz. rewrite Hz.
  specialize (IH (fun x Hx => H x (or_intror Hx))).
  destruct (priority_cases z) as [E|[E|E]]; rewrite E; cbn; lia.
Qed.

(** X13: the High, Medium and Low counts of the reply to a table add up to the
    number of selected rows. *)
Theorem prio_counts_total rt MIN_SUM f :
  match score_table rt MIN_SUM f with
  | Some (out, d) => let '(high, med, low) := prio_counts out d in high + med + low = d_total_out d
  | None => False
  end.
Proof.
  rewrite score_table_output. unfold prio_counts. rewrite total_out_nrows.
  destruct (Nat.eqb_spec (nrows (output rt MIN_SUM f)) 0) as [->|_]; [reflexivity|].
  unfold value_count, nrows. apply count_three.
  intros x Hx. apply in_output_presorted, presorted_row_keys in Hx as (z & _ & Hz). eauto.
Qed.

Lemma length_nil_rows {A} (l : list A) : length l = 0 -> l = [].
Proof. destruct l; [reflexivity|discriminate]. Qed.

(** X12: a table without rows gives an empty output, zero in every diagnostic
    count and zero High, Medium and Low rows. *)
Theorem empty_table rt MIN_SUM f :
  rows f = [] ->
  match score_table rt MIN_SUM f with
  | Some (out, d) =>
      rows out = [] /\ d_total_in d = 0 /\ d_total_out d = 0 /\ d_kw_hits d = 0 /\
      d_client_hits d = 0 /\ d_pattern_hits d = 0 /\ d_sum_ge_min d = 0 /\
      prio_counts out d = (0, 0, 0)
  | None => False
  end.
Proof.
  intros Hf. rewrite score_table_output.
  assert (Hn : nrows f = 0) by (unfold nrows; rewrite Hf; reflexivity).
  assert (Hk : kw_of rt f = []) by (apply length_nil_rows; rewrite length_kw_of; exact Hn).
  assert (Hc : cl_of rt f = []) by (apply length_nil_rows; rewrite length_cl_of; exact Hn).
  assert (Hp : pat_of rt f = []) by (apply length_nil_rows; rewrite length_pat_of; exact Hn).
  assert (Hq : amt_vals_of rt f = []).
  { apply length_nil_rows. rewrite <- Hn, <- (length_amt_of rt f). unfold amt_of. rewrite length_map. reflexivity. }
  assert (Ho : rows (output rt MIN_SUM f) = []).
  { apply length_nil_rows. rewrite <- nrows_def, nrows_output.
    pose proof (filter_combine_le_nrows (scored rt f) (map2 andb (base_mask rt f) (sum_mask rt MIN_SUM f))) as Hl.
    rewrite nrows_scored, Hn in Hl. lia. }
  assert (Hto : d_total_out (diagnostics rt MIN_SUM f) = 0)
    by (rewrite total_out_nrows, nrows_def, Ho; reflexivity).
  split; [exact Ho|].
  unfold prio_counts. rewrite Hto. cbn [Nat.eqb].
  unfold diagnostics in Hto |- *. destruct (detect rt (fillna_str f)) as [[n c] a].
  cbn [d_total_in d_total_out d_kw_hits d_client_hits d_pattern_hits d_sum_ge_min] in Hto |- *.
  rewrite nrows_scored, Hn, Hk, Hc, Hp, Hq.
  destruct (negb (Qle_bool MIN_SUM 0)); repeat split; assumption.
Qed.


(** X5: on a 2xx response [call_openai] returns the stripped content of the
    first choice, the local-error text with ['choices'] when the body has no
    choices, and the local-error text with the parser's message when the body
    is not JSON. *)
Theorem call_openai_2xx rt post lines status text body :
  post (openai_messages lines) = PostResponse status text body -> (200 <= status < 300)%Z ->
  (forall m m1 rest m2 s,
     body = inr (JObj m) -> assoc "choices" (rev m) = Some (JArr (JObj m1 :: rest)) ->
     assoc "message" (rev m1) = Some (JObj m2) -> assoc "content" (rev m2) = Some (JStr s) ->
     call_openai rt post lines = inr (py_strip rt s)) /\
  (forall m, body = inr (JObj m) -> assoc "choices" (rev m) = None ->
     call_openai rt post lines = inr "⚠️ Локальная ошибка: 'choices'") /\
  (forall msg, body = inl msg -> call_openai rt post lines = inr ("⚠️ Локальная ошибка: " ++ msg)).
Proof.
  intros Hp Hs. unfold call_openai. rewrite Hp. cbn [openai_try].
  assert (Hb : (Z.leb 200 status && Z.ltb status 300)%bool = true).
  { apply andb_true_intro. split; [apply Z.leb_le|apply Z.ltb_lt]; lia. }
  rewrite Hb. split; [|split].
  - intros m m1 rest m2 s -> E1 E2 E3. cbn [getitem_key and_then]. rewrite E1.
    cbn [getitem_idx nth_error and_then getitem_key]. rewrite E2. cbn [and_then getitem_key].
    rewrite E3. reflexivity.
  - intros m -> E1. cbn [getitem_key and_then]. rewrite E1. reflexivity.
  - intros msg ->. reflexivity.
Qed.

Lemma output_selection_witness :
  let f := mkFrame ["Название"; "Сумма"]
             [(0, [("Название", PStr "поставка ИИС"); ("Сумма", PInt 5)]);
              (1, [("Название", PStr "канцтовары"); ("Сумма", PInt 7)])] in
  NoDup (map fst (rows f)) /\
  nth_error (rows f) 0 = Some (0, [("Название", PStr "поставка ИИС"); ("Сумма", PInt 5)]) /\
  match score_table cpython 0 f with
  | Some (out, _) =>
      exists k c p q,
        nth_error (kw_of cpython f) 0 = Some k /\ nth_error (cl_of cpython f) 0 = Some c /\
        nth_error (pat_of cpython f) 0 = Some p /\ nth_error (amt_vals_of cpython f) 0 = Some q /\
        (In 0 (map fst (rows out)) <->
         ((1 <= k)%Z \/ (1 <= c)%Z \/ (1 <= p)%Z) /\
         (if Qle_bool 0 0 then (0 <= q)%Q
          else ((0 <= q)%Q \/ (1 <= k)%Z \/ (1 <= p)%Z)))
  | None => False
  end.
Proof.
  intros f.
  assert (H1 : NoDup (map fst (rows f))).
  { cbn. constructor; [cbn; intros [H|H]; [discriminate|contradiction]|].
    constructor; [intros []|constructor]. }
  assert (H2 : nth_error (rows f) 0 = Some (0, [("Название", PStr "поставка ИИС"); ("Сумма", PInt 5)]))
    by reflexivity.
  split; [exact H1|]. split; [exact H2|].
  exact (output_selection cpython 0 f 0 0 _ H1 H2).
Defined.

Lemma empty_table_witness :
  let f := mkFrame ["Название"; "Компания"; "Сумма"] [] in
  rows f = [] /\
  match score_table cpython 1000000 f with
  | Some (out, d) =>
      rows out = [] /\ d_total_in d = 0 /\ d_total_out d = 0 /\ d_kw_hits d = 0 /\
      d_client_hits d = 0 /\ d_pattern_hits d = 0 /\ d_sum_ge_min d = 0 /\
      prio_counts out d = (0, 0, 0)
  | None => False
  end.
Proof.
  intros f. assert (H : rows f = []) by reflexivity.
  split; [exact H|]. exact (empty_table cpython 1000000 f H).
Defined.

Lemma call_openai_2xx_witness :
  let post := fun _ : list (string * string) => PostResponse 200 "OK"
    (inr (JObj [("choices", JArr [JObj [("message", JObj [("content", JStr " ok ")])]])])) in
  let body := inr (JObj [("choices", JArr [JObj [("message", JObj [("content", JStr " ok ")])]])]) in
  post (openai_messages ["user: привет"]) = PostResponse 200 "OK" body /\ (200 <= 200 < 300)%Z /\
  (forall m m1 rest m2 s,
     body = inr (JObj m) -> assoc "choices" (rev m) = Some (JArr (JObj m1 :: rest)) ->
     assoc "message" (rev m1) = Some (JObj m2) -> assoc "content" (rev m2) = Some (JStr s) ->
     call_openai cpython post ["user: привет"] = inr (py_strip cpython s)) /\
  (forall m, body = inr (JObj m) -> assoc "choices" (rev m) = None ->
     call_openai cpython post ["user: привет"] = inr "⚠️ Локальная ошибка: 'choices'") /\
  (forall msg, body = inl msg ->
     call_openai cpython post ["user: привет"] = inr ("⚠️ Локальная ошибка: " ++ msg)).
Proof.
  intros post body.
  assert (H1 : post (openai_messages ["user: привет"]) = PostResponse 200 "OK" body) by reflexivity.
  assert (H2 : (200 <= 200 < 300)%Z) by lia.
  split; [exact H1|]. split; [exact H2|].
  exact (call_openai_2xx cpython post ["user: привет"] 200 "OK" body H1 H2).
Defined.

Lemma utf8_take_len n s : utf8_len (utf8_take n s) <= n.
Proof.
  revert n. induction s as [|a s IH]; intros n; cbn; [lia|].
  destruct (utf8_cont a) eqn:E.
  - cbn. rewrite E. cbn. apply IH.
  - destruct n as [|n]; cbn; [lia|]. rewrite E. specialize (IH n). lia.
Qed.

Lemma presorted_reason_str rt MIN_SUM f x :
  In x (rows (presorted rt MIN_SUM f)) -> exists why, row_get (snd x) "Причина" = PStr why.
Proof.
  unfold presorted. intros Hx.
  apply in_set_col in Hx as (y & u & Hy & ->).
  apply in_combine_map in Hy. subst u.
  destruct y as [i r]. cbn [fst snd]. rewrite row_get_dict_set_same. eexists. reflexivity.
Qed.

(** X14: the preview of the reply to a table has one line per output row, at
    most five, in output order; each line shows the priority and total of its
    row, a title of at most 140 characters, and a reason that is never the
    fallback. *)
Theorem preview_rows_spec rt MIN_SUM f :
  match score_table rt MIN_SUM f with
  | Some (out, d) =>
      length (preview_rows rt out d) = Nat.min 5 (d_total_out d) /\
      forall j line, nth_error (preview_rows rt out d) j = Some line ->
        exists lab r z title why,
          nth_error (rows out) j = Some (lab, r) /\ row_get r "Score_total(0-10)" = PInt z /\
          line = "• [" ++ _priority z ++ " | " ++ z_repr z ++ "] " ++ title ++ nl ++ "   — " ++ why /\
          utf8_len title <= 140 /\ why <> "значимых совпадений нет"
  | None => False
  end.
Proof.
  rewrite score_table_output. unfold preview_rows. rewrite total_out_nrows, nrows_def.
  destruct (Nat.eqb_spec (length (rows (output rt MIN_SUM f))) 0) as [E|E].
  - rewrite E. split; [reflexivity|]. intros j line H. destruct j; discriminate.
  - split; [rewrite length_map, length_firstn; reflexivity|].
    intros j line H. rewrite nth_error_map in H.
    destruct (nth_error (firstn 5 (rows (output rt MIN_SUM f))) j) as [[lab r]|] eqn:Hj; [|discriminate].
    cbn in H. injection H as <-.
    assert (Hjr : nth_error (rows (output rt MIN_SUM f)) j = Some (lab, r)).
    { assert (Hlt : j < 5).
      { assert (Hl : j < length (firstn 5 (rows (output rt MIN_SUM f))))
          by (apply nth_error_Some; rewrite Hj; discriminate).
        rewrite length_firstn in Hl. lia. }
      rewrite nth_error_firstn in Hj. destruct (Nat.ltb_spec j 5); [exact Hj|lia]. }
    pose proof (nth_error_In _ _ Hjr) as Hin. apply in_output_presorted in Hin.
    destruct (presorted_row_keys _ _ _ _ Hin) as (z & Hz & Hp).
    destruct (presorted_row_reason _ _ _ _ Hin) as (_ & Hw).
    destruct (presorted_reason_str _ _ _ _ Hin) as (why & Hwhy).
    cbn [snd] in Hz, Hp, Hw, Hwhy.
    exists lab, r, z, (utf8_take 140 (py_str rt (row_get_or r (d_name_col (diagnostics rt MIN_SUM f)) (PStr "")))), why.
    split; [exact Hjr|]. split; [exact Hz|]. split.
    + unfold preview_line. rewrite Hp, Hz, Hwhy. reflexivity.
    + split; [apply utf8_take_len|]. intros ->. apply Hw. exact Hwhy.
Qed.
